(** * gobake: embedding of the code generator and its properties

    The development follows [gobake.go]: the two compressors, the three
    declaration shapes, [formatValue], [getDeclName] and the part of
    [main] that collects imports and assembles the generated file.

    Go strings are byte strings and are modelled as [string]; a [[]byte]
    is a [list byte]; Go's [int] is modelled as [Z] (every arithmetic
    operation of the program stays far inside the 64-bit range: lengths,
    [i%wrap] and [wrap-1] under the guard [wrap > 0]); a [rune] is a [Z]
    code point. *)

From Stdlib Require Import ZArith List Bool Lia.
From Stdlib Require Import Strings.Ascii Strings.String Strings.Byte.
From Stdlib Require Import Sorting.Sorted Sorting.Permutation.
Import ListNotations.

Open Scope string_scope.
Open Scope Z_scope.

(** ** Characters and strings *)

Definition dq : ascii := "034"%char.   (* the double quote *)
Definition nl : ascii := "010"%char.   (* line feed *)
Definition tab : ascii := "009"%char.  (* horizontal tab *)

Definition ch (c : ascii) : string := String c EmptyString.

(** [s[i]] on a Go string.  Go panics when the index is out of range; the
    only indexing of the program is into [hextable] with a nibble, which
    is always in range (see [hextable_index_defined]). *)
Definition index_or_zero (s : string) (i : N) : ascii :=
  match String.get (N.to_nat i) s with
  | Some c => c
  | None => zero
  end.

(** ** Compressors *)

Inductive Compressor : Type :=
| noCompressor
| gzipCompressor.

Section Compress.

(** [gz b] stands for the bytes that [compress/gzip] writes for [b] at
    the default level ([gzip.NewWriter], [Write], [Close]); the codec
    is Go's, not the program's. *)
Variable gz : list byte -> list byte.

Definition Encode (c : Compressor) (b : list byte) : list byte :=
  match c with
  | noCompressor => b
  | gzipCompressor => gz b
  end.

End Compress.

Definition CompressorImports (c : Compressor) : list string :=
  match c with
  | noCompressor => ["ioutil"; "strings"]
  | gzipCompressor => ["gzip"; "strings"]
  end.

Definition FuncDecoder (c : Compressor) (v : string) : string :=
  match c with
  | noCompressor =>
      "return ioutil.NopCloser(strings.NewReader(" ++ v ++ "))"
  | gzipCompressor =>
      "gr, _ := gzip.NewReader(strings.NewReader(" ++ v ++ "))"
        ++ ch nl ++ ch tab ++ "return gr"
  end.

(** ** formatValue *)

Definition hextable : string := "0123456789abcdef".

Definition hex_hi (x : byte) : ascii :=
  index_or_zero hextable (N.shiftr (Byte.to_N x) 4).

Definition hex_lo (x : byte) : ascii :=
  index_or_zero hextable (N.land (Byte.to_N x) 15).

(** The inner [for i := 0; i < indent; i++] loop. *)
Fixpoint tabs_nat (n : nat) : string :=
  match n with
  | O => ""
  | S k => ch tab ++ tabs_nat k
  end.

Definition tabs (indent : Z) : string := tabs_nat (Z.to_nat indent).

(** What one iteration of the main loop writes for byte [x] at index [i];
    [n] is [len(b)] and [typ] the type after the [string] alias has been
    cleared.  Go's [%] truncates, which is [Z.rem]. *)
Definition formatByte (wrap indent : Z) (typ : string) (n i : Z) (x : byte)
  : string :=
  (if (n >? wrap) && (wrap >? 0) && (Z.rem i wrap =? 0)
   then tabs indent ++ ch dq else "")
  ++ "\x" ++ ch (hex_hi x) ++ ch (hex_lo x)
  ++ (if i =? n - 1
      then ch dq ++ (if (typ =? "")%string then "" else ")") ++ ch nl
      else if (wrap >? 0) && (Z.rem i wrap =? wrap - 1)
           then ch dq ++ " +" ++ ch nl
           else "").

(** The loop [for i := 0; i < len(b); i++], started at index [i] with the
    bytes from [i] on still to be written. *)
Fixpoint formatLoop (wrap indent : Z) (typ : string) (n i : Z)
  (rest : list byte) : string :=
  match rest with
  | [] => ""
  | x :: rest' =>
      formatByte wrap indent typ n i x
        ++ formatLoop wrap indent typ n (i + 1) rest'
  end.

Definition formatValue (wrap indent : Z) (typ : string) (b : list byte)
  : string :=
  let typ := if (typ =? "string")%string then "" else typ in
  let n := Z.of_nat (List.length b) in
  if n =? 0 then
    if (typ =? "")%string then ch dq ++ ch dq ++ ch nl
    else typ ++ "(" ++ ch dq ++ ch dq ++ ")" ++ ch nl
  else
    (if (typ =? "")%string then "" else typ ++ "(")
    ++ (if (wrap >? 0) && (n >? wrap)
        then ch dq ++ ch dq ++ " +" ++ ch nl
        else ch dq)
    ++ formatLoop wrap indent typ n 0 b.

(** ** Declarations *)

Inductive Declaration : Type :=
| constDecl
| varDecl
| funcDecl.

Definition DeclarationImports (d : Declaration) : list string :=
  match d with
  | constDecl => []
  | varDecl => []
  | funcDecl => ["io"]
  end.

Section Declare.

Variable gz : list byte -> list byte.

Definition FormatDeclare (d : Declaration) (value : list byte)
  (name typ : string) (compress : Compressor) : string :=
  match d with
  | constDecl =>
      "const " ++ name ++ " = "
        ++ formatValue 16 1 typ (Encode gz compress value)
  | varDecl =>
      "var " ++ name ++ " = "
        ++ formatValue 16 1 typ (Encode gz compress value)
  | funcDecl =>
      "func " ++ name ++ "() io.ReadCloser {" ++ ch nl ++ ch tab
        ++ "const a = "
        ++ formatValue 16 2 typ (Encode gz compress value)
        ++ ch tab ++ FuncDecoder compress "a" ++ ch nl ++ "}" ++ ch nl
  end.

End Declare.

(** ** getDeclName *)

Definition rune : Type := Z.

Definition underscore : rune := 95.

(** What the program takes from Go's [unicode] package and from the
    language: the letter table, the two case mappings, and the runes that
    [for _, r := range name] yields for a string. *)
Class Unicode : Type := {
  IsLetter : rune -> bool;
  ToUpper : rune -> rune;
  ToLower : rune -> rune;
  rangeRunes : string -> list rune
}.

(** [byte(x)]: the low eight bits. *)
Definition byteOf (z : Z) : ascii := ascii_of_N (Z.to_N z).

(** The UTF-8 bytes of one rune in [string(s)] for [s []rune]; a rune
    that is no valid code point is written as U+FFFD. *)
Definition encodeRune (r : rune) : string :=
  if (0 <=? r) && (r <=? 127) then ch (byteOf r)
  else if (0 <=? r) && (r <=? 2047) then
    ch (byteOf (Z.lor 192 (Z.shiftr r 6)))
    ++ ch (byteOf (Z.lor 128 (Z.land r 63)))
  else if (0 <=? r) && ((r <? 55296) || ((57343 <? r) && (r <=? 65535))) then
    ch (byteOf (Z.lor 224 (Z.shiftr r 12)))
    ++ ch (byteOf (Z.lor 128 (Z.land (Z.shiftr r 6) 63)))
    ++ ch (byteOf (Z.lor 128 (Z.land r 63)))
  else if (65535 <? r) && (r <=? 1114111) then
    ch (byteOf (Z.lor 240 (Z.shiftr r 18)))
    ++ ch (byteOf (Z.lor 128 (Z.land (Z.shiftr r 12) 63)))
    ++ ch (byteOf (Z.lor 128 (Z.land (Z.shiftr r 6) 63)))
    ++ ch (byteOf (Z.lor 128 (Z.land r 63)))
  else
    ch (byteOf 239) ++ ch (byteOf 191) ++ ch (byteOf 189).

Fixpoint stringOfRunes (s : list rune) : string :=
  match s with
  | [] => ""
  | r :: s' => encodeRune r ++ stringOfRunes s'
  end.

Section Sanitize.

Context {U : Unicode}.

(** One iteration of the loop of [getDeclName]: [s] is the slice built
    so far, [r] the next rune of the name. *)
Definition declNameStep (export : bool) (s : list rune) (r : rune)
  : list rune :=
  if IsLetter r then
    if (List.length s =? 0)%nat then
      if export then s ++ [ToUpper r] else s ++ [ToLower r]
    else s ++ [r]
  else
    if (0 <? List.length s)%nat then s ++ [underscore] else s.

(** The slice [s] when the loop over the runes of the name ends. *)
Definition declNameRunes (name : list rune) (export : bool) : list rune :=
  fold_left (declNameStep export) name [].

Definition getDeclName (name : string) (export : bool) : string :=
  stringOfRunes (declNameRunes (rangeRunes name) export).

End Sanitize.

(** ** main *)

(** The [flags] struct after [flag.Parse]; [Typ] is its field [Type]. *)
Record Flags : Type := {
  Decl : string;
  Compress : string;
  Export : bool;
  Import : string;
  Name : string;
  Output : string;
  Package : string;
  Typ : string
}.

(** What [main] is given besides the flags: [os.Args[1:]], the file
    argument ([None] when [flag.NArg() == 0], the input is then standard
    input), and the bytes read ([None] when the read fails). *)
Record Input : Type := {
  Args : list string;
  FileArg : option string;
  Content : option (list byte)
}.

(** What [main] takes from the standard library besides [unicode]. *)
Class Host : Type := {
  gzipBytes : list byte -> list byte;      (* compress/gzip, default level *)
  sharpV : string -> string;               (* fmt's %#v of a string *)
  importDirName : string -> option string; (* the Name that build.ImportDir
                                              finds for filepath.Dir of the
                                              path; None on an error *)
  fileStem : string -> string              (* filepath.Base of the path
                                              without its filepath.Ext *)
}.

(** [sort.Strings]: ascending for [<] on strings, which compares bytes.
    The sorted list of a list is unique, whatever the algorithm. *)
Fixpoint insertString (x : string) (l : list string) : list string :=
  match l with
  | [] => [x]
  | y :: l' => if (x <=? y)%string then x :: l else y :: insertString x l'
  end.

Fixpoint sortStrings (l : list string) : list string :=
  match l with
  | [] => []
  | x :: l' => insertString x (sortStrings l')
  end.

(** The [switch flags.Decl]. *)
Definition selectDeclaration (decl : string) : Declaration :=
  if (decl =? "var")%string then varDecl
  else if (decl =? "const")%string then constDecl
  else funcDecl.

(** [flags.Type] after the [switch flags.Decl]. *)
Definition effectiveType (f : Flags) : string :=
  if (Decl f =? "var")%string then Typ f
  else if (Decl f =? "const")%string then ""
  else "".

(** The [switch flags.Compress]. *)
Definition selectCompressor (compress : string) : Compressor :=
  if (compress =? "gzip")%string then gzipCompressor else noCompressor.

(** The type assertion [declaration.(funcDecl)]. *)
Definition isFuncDecl (d : Declaration) : bool :=
  match d with
  | funcDecl => true
  | _ => false
  end.

(** The slice [imports] before [sort.Strings]. *)
Definition gatherImports (f : Flags) : list string :=
  let declaration := selectDeclaration (Decl f) in
  let compressor := selectCompressor (Compress f) in
  let imports := ([] ++ DeclarationImports declaration)%list in
  let imports :=
    if isFuncDecl declaration
    then (imports ++ CompressorImports compressor)%list
    else imports in
  if (Import f =? "")%string then imports else (imports ++ [Import f])%list.

(** The slice [imports] after [sort.Strings]. *)
Definition collectImports (f : Flags) : list string :=
  sortStrings (gatherImports f).

Fixpoint concatMap {A : Type} (g : A -> string) (l : list A) : string :=
  match l with
  | [] => ""
  | x :: l' => g x ++ concatMap g l'
  end.

Section Main.

Context {U : Unicode} {H : Host}.

Definition packageName (f : Flags) : string :=
  if (Package f =? "")%string then
    if (Output f =? "")%string then "main"
    else match importDirName (Output f) with
         | Some name => if (name =? "")%string then "main" else name
         | None => "main"
         end
  else Package f.

Definition importBlock (imports : list string) : string :=
  match imports with
  | [] => ""
  | _ :: _ =>
      "import (" ++ ch nl
        ++ concatMap (fun imp => ch tab ++ sharpV imp ++ ch nl) imports
        ++ ")" ++ ch nl ++ ch nl
  end.

(** Everything written to the builder before the declaration. *)
Definition header (f : Flags) (args : list string) : string :=
  "// File generated by " ++ ch dq ++ "gobake"
    ++ concatMap (fun a => " " ++ a) args
    ++ ch dq ++ ch nl ++ "// DO NOT EDIT!" ++ ch nl ++ ch nl ++ "package "
    ++ packageName f ++ ch nl ++ ch nl
    ++ importBlock (collectImports f).

(** The name handed to [getDeclName]. *)
Definition rawName (f : Flags) (file : option string) : string :=
  if (Name f =? "")%string then
    match file with
    | None => "stdin"
    | Some path => fileStem path
    end
  else Name f.

(** The declaration that [main] appends to the header. *)
Definition declarationText (f : Flags) (file : option string)
  (b : list byte) : string :=
  FormatDeclare gzipBytes (selectDeclaration (Decl f)) b
    (getDeclName (rawName f file) (Export f))
    (effectiveType f)
    (selectCompressor (Compress f)).

(** The text that [main] hands to the output; [None] when reading the
    input fails ([but.IfFatal] ends the run). *)
Definition generate (f : Flags) (i : Input) : option string :=
  match Content i with
  | None => None
  | Some b => Some (header f (Args i) ++ declarationText f (FileArg i) b)
  end.

End Main.

(** ** The standard library on ASCII text

    An instance for closed examples.  On ASCII strings it is what Go
    computes: the letters are [A-Z] and [a-z], the case mappings shift by
    32, [range] yields one rune per byte, and [%#v] puts a string without
    special characters between double quotes.  No example below runs the
    gzip codec, looks a directory up or reads from a file; the entries
    for these are placeholders. *)

Fixpoint asciiRunes (s : string) : list rune :=
  match s with
  | EmptyString => []
  | String c s' => Z.of_N (N_of_ascii c) :: asciiRunes s'
  end.

Definition asciiIsLetter (r : rune) : bool :=
  ((65 <=? r) && (r <=? 90)) || ((97 <=? r) && (r <=? 122)).

#[local] Instance AsciiUnicode : Unicode := {|
  IsLetter := asciiIsLetter;
  ToUpper := fun r => if (97 <=? r) && (r <=? 122) then r - 32 else r;
  ToLower := fun r => if (65 <=? r) && (r <=? 90) then r + 32 else r;
  rangeRunes := asciiRunes
|}.

#[local] Instance PlainHost : Host := {|
  gzipBytes := fun b => b;
  sharpV := fun s => ch dq ++ s ++ ch dq;
  importDirName := fun _ => None;
  fileStem := fun path => path
|}.

(** ** The shape of the formatted value

    The literal expression that [formatValue] writes, described by its
    chunks rather than by the index arithmetic of the loop. *)

Definition escapeByte (x : byte) : string :=
  "\x" ++ ch (hex_hi x) ++ ch (hex_lo x).

Fixpoint escape (b : list byte) : string :=
  match b with
  | [] => ""
  | x :: b' => escapeByte x ++ escape b'
  end.

Definition quoted (b : list byte) : string := ch dq ++ escape b ++ ch dq.

(** [b] cut into pieces of [w] bytes, the last one possibly shorter. *)
Fixpoint chunksFuel (fuel w : nat) (b : list byte) : list (list byte) :=
  match fuel with
  | O => []
  | S fuel' =>
      match b with
      | [] => []
      | _ :: _ => firstn w b :: chunksFuel fuel' w (skipn w b)
      end
  end.

Definition chunks (w : nat) (b : list byte) : list (list byte) :=
  chunksFuel (List.length b) w b.

Definition wraps (wrap : Z) (b : list byte) : bool :=
  (wrap >? 0) && (Z.of_nat (List.length b) >? wrap).

Definition chunkLine (indent : Z) (c : list byte) : string :=
  tabs indent ++ quoted c.

Definition plusBreak : string := " +" ++ ch nl.

Definition literalExpr (wrap indent : Z) (b : list byte) : string :=
  if wraps wrap b then
    ch dq ++ ch dq ++ plusBreak
      ++ String.concat plusBreak
           (map (chunkLine indent) (chunks (Z.to_nat wrap) b))
  else quoted b.

Definition isConversion (typ : string) : bool :=
  negb (typ =? "")%string && negb (typ =? "string")%string.

Definition convOpen (typ : string) : string :=
  if isConversion typ then typ ++ "(" else "".

Definition convClose (typ : string) : string :=
  if isConversion typ then ")" else "".

(** The wrapped rendering as the specification words it: the first chunk
    follows directly, every later chunk starts an indented line. *)
Definition claimedWrapped (wrap indent : Z) (b : list byte) : string :=
  match chunks (Z.to_nat wrap) b with
  | [] => quoted []
  | c :: cs =>
      quoted c ++ concatMap (fun c' => plusBreak ++ chunkLine indent c') cs
  end.

(** ** Lexical checks on generated text *)

(** A recogniser for a concatenation of string literals:
    [lit (+ lit)*], where blanks may surround a [+] and a line may only
    break after a [+] (a line break after a literal ends a Go
    statement). *)
Inductive LitState : Type :=
| ExpectLit   (* at the start or after a [+] *)
| InLit       (* inside a literal *)
| InLitEsc    (* after a backslash inside a literal *)
| AfterLit    (* a literal has just been closed *)
| LitError.

Definition isBlank (c : ascii) : bool :=
  (c =? " ")%char || (c =? tab)%char.

Definition litStep (st : LitState) (c : ascii) : LitState :=
  match st with
  | ExpectLit =>
      if (c =? dq)%char then InLit
      else if isBlank c || (c =? nl)%char then ExpectLit
      else LitError
  | InLit =>
      if (c =? dq)%char then AfterLit
      else if (c =? "\")%char then InLitEsc
      else if (c =? nl)%char then LitError
      else InLit
  | InLitEsc => if (c =? nl)%char then LitError else InLit
  | AfterLit =>
      if (c =? "+")%char then ExpectLit
      else if isBlank c then AfterLit
      else LitError
  | LitError => LitError
  end.

Fixpoint litRun (st : LitState) (s : string) : LitState :=
  match s with
  | EmptyString => st
  | String c s' => litRun (litStep st c) s'
  end.

Definition isLiteralConcat (s : string) : bool :=
  match litRun ExpectLit s with
  | AfterLit => true
  | _ => false
  end.

(** The number of string literals the recogniser closes. *)
Fixpoint countLiterals (st : LitState) (s : string) : nat :=
  match s with
  | EmptyString => O
  | String c s' =>
      ((match st, litStep st c with
        | InLit, AfterLit => 1
        | _, _ => 0
        end) + countLiterals (litStep st c) s')%nat
  end.

(** Where a reader of Go text is: in code, inside a string literal, or
    after a backslash inside one. *)
Inductive Mode : Type :=
| InCode
| InString
| InStringEsc.

(** Quotes and parentheses of a text: every quote is closed, and
    outside the literals no parenthesis closes before it opens or stays
    open. *)
Record Balance : Type := {
  place : Mode;
  depth : nat;       (* parentheses open at this point *)
  sound : bool       (* no parenthesis closed too early *)
}.

Definition balanceStep (st : Balance) (c : ascii) : Balance :=
  match place st with
  | InString =>
      if (c =? dq)%char then
        {| place := InCode; depth := depth st; sound := sound st |}
      else if (c =? "\")%char then
        {| place := InStringEsc; depth := depth st; sound := sound st |}
      else st
  | InStringEsc =>
      {| place := InString; depth := depth st; sound := sound st |}
  | InCode =>
      if (c =? dq)%char then
        {| place := InString; depth := depth st; sound := sound st |}
      else if (c =? "(")%char then
        {| place := InCode; depth := S (depth st); sound := sound st |}
      else if (c =? ")")%char then
        match depth st with
        | O => {| place := InCode; depth := O; sound := false |}
        | S d => {| place := InCode; depth := d; sound := sound st |}
        end
      else st
  end.

Fixpoint balanceRun (st : Balance) (s : string) : Balance :=
  match s with
  | EmptyString => st
  | String c s' => balanceRun (balanceStep st c) s'
  end.

Definition codeAt (d : nat) : Balance :=
  {| place := InCode; depth := d; sound := true |}.

Definition stringAt (d : nat) : Balance :=
  {| place := InString; depth := d; sound := true |}.

Definition isBalanced (s : string) : bool :=
  match balanceRun (codeAt 0) s with
  | {| place := InCode; depth := O; sound := true |} => true
  | _ => false
  end.

(** A type written without quotes and parentheses, as a type name is. *)
Fixpoint plainType (typ : string) : bool :=
  match typ with
  | EmptyString => true
  | String c typ' =>
      negb (c =? dq)%char && negb (c =? "(")%char && negb (c =? ")")%char
      && plainType typ'
  end.

(** The package names a fragment of Go code uses as qualifiers: the
    identifiers that a dot follows, outside string literals, themselves
    not selected from something else.  These are names, not import
    paths: [ioutil.NopCloser] uses the name [ioutil], whatever the path
    of the package that bears it. *)
Record Scan : Type := {
  mode : Mode;
  word : string;          (* the identifier being read *)
  selected : bool;        (* it follows a dot *)
  found : list string
}.

Definition isDigitByte (c : ascii) : bool :=
  let n := N_of_ascii c in ((48 <=? n) && (n <=? 57))%N.

Definition isIdentByte (c : ascii) : bool :=
  let n := N_of_ascii c in
  (((65 <=? n) && (n <=? 90)) || ((97 <=? n) && (n <=? 122))
   || (n =? 95) || (128 <=? n))%N
  || isDigitByte c.

Definition isPackageWord (w : string) : bool :=
  match w with
  | EmptyString => false
  | String c _ => negb (isDigitByte c)
  end.

Definition scanStep (st : Scan) (c : ascii) : Scan :=
  match mode st with
  | InString =>
      if (c =? dq)%char then
        {| mode := InCode; word := ""; selected := false; found := found st |}
      else if (c =? "\")%char then
        {| mode := InStringEsc; word := ""; selected := false;
           found := found st |}
      else st
  | InStringEsc =>
      {| mode := InString; word := ""; selected := false; found := found st |}
  | InCode =>
      if (c =? dq)%char then
        {| mode := InString; word := ""; selected := false;
           found := found st |}
      else if isIdentByte c then
        {| mode := InCode; word := word st ++ ch c; selected := selected st;
           found := found st |}
      else if (c =? ".")%char then
        {| mode := InCode; word := ""; selected := true;
           found := if isPackageWord (word st) && negb (selected st)
                    then (found st ++ [word st])%list else found st |}
      else
        {| mode := InCode; word := ""; selected := false; found := found st |}
  end.

Fixpoint scan (st : Scan) (s : string) : Scan :=
  match s with
  | EmptyString => st
  | String c s' => scan (scanStep st c) s'
  end.

Definition scanStart : Scan :=
  {| mode := InCode; word := ""; selected := false; found := [] |}.

Definition referenced (s : string) : list string := found (scan scanStart s).

(** A string that can neither open a literal nor qualify a name. *)
Fixpoint noDotNoQuote (s : string) : bool :=
  match s with
  | EmptyString => true
  | String c s' =>
      negb (c =? ".")%char && negb (c =? dq)%char && noDotNoQuote s'
  end.

(** ** The sanitizer as the specification words it

    A run of non-letters after a kept letter gives one underscore. *)
Section SanitizeSpec.

Context {U : Unicode}.

Definition collapseStep (export : bool) (s : list rune) (r : rune)
  : list rune :=
  if IsLetter r then
    if (List.length s =? 0)%nat then
      if export then s ++ [ToUpper r] else s ++ [ToLower r]
    else s ++ [r]
  else
    match List.rev s with
    | [] => s
    | l :: _ => if l =? underscore then s else s ++ [underscore]
    end.

Definition collapseRuns (name : list rune) (export : bool) : list rune :=
  fold_left (collapseStep export) name [].

Fixpoint dropNonLetters (name : list rune) : list rune :=
  match name with
  | [] => []
  | r :: name' => if IsLetter r then name else dropNonLetters name'
  end.

Definition letterOrUnderscore (r : rune) : rune :=
  if IsLetter r then r else underscore.

Definition noLetters (name : list rune) : bool :=
  forallb (fun r => negb (IsLetter r)) name.

End SanitizeSpec.

(** The facts about Go's [unicode] tables that the properties of the
    identifier rely on: below 128 the letters are [A-Z] and [a-z], and a
    case mapping sends a letter to a letter. *)
Class UnicodeFacts (U : Unicode) : Prop := {
  letter_ascii :
    forall r, 0 <= r <= 127 -> IsLetter r = true -> asciiIsLetter r = true;
  upper_letter : forall r, IsLetter r = true -> IsLetter (ToUpper r) = true;
  lower_letter : forall r, IsLetter r = true -> IsLetter (ToLower r) = true
}.

(** The closing parenthesis the loop writes after the last byte; there
    [typ] is the type after the [string] alias has been cleared. *)
Definition closeOf (typ : string) : string :=
  if (typ =? "")%string then "" else ")".

(** The sizes of the chunks depend on the length alone. *)
Fixpoint chunkSizes (fuel w len : nat) : list nat :=
  match fuel with
  | O => []
  | S fuel' =>
      match len with
      | O => []
      | S _ => Nat.min w len :: chunkSizes fuel' w (len - w)
      end
  end.

Fixpoint lastChar (s : string) : option ascii :=
  match s with
  | EmptyString => None
  | String c s' =>
      match lastChar s' with
      | None => Some c
      | Some d => Some d
      end
  end.

Definition endsWithNewline (s : string) : bool :=
  match lastChar s with
  | Some c => (c =? nl)%char
  | None => false
  end.

(** The imports of the shape and, for the func shape, of the compressor:
    [imports] before the extra import is appended. *)
Definition shapeImports (f : Flags) : list string :=
  let declaration := selectDeclaration (Decl f) in
  (DeclarationImports declaration
     ++ (if isFuncDecl declaration
         then CompressorImports (selectCompressor (Compress f))
         else []))%list.

Definition extraImport (f : Flags) : list string :=
  if (Import f =? "")%string then [] else [Import f].

Definition stringLe (a b : string) : Prop := (a <=? b)%string = true.

(** The scanner in code, reading the word [w]. *)
Definition inCode (w : string) (sel : bool) (f : list string) : Scan :=
  {| mode := InCode; word := w; selected := sel; found := f |}.

Definition inString (f : list string) : Scan :=
  {| mode := InString; word := ""; selected := false; found := f |}.

Definition inertByte (c : ascii) : bool :=
  negb (c =? ".")%char && negb (c =? dq)%char.

(** ** The value of a literal expression

    What a Go compiler reads from [lit (+ lit)*]: the bytes of the
    literals, one after the other.  Inside a literal [\xHH] is the byte
    with the hexadecimal digits [HH]; the only escape the program writes
    is this one, and any other is refused here. *)

Definition hexValue (c : ascii) : option N :=
  let n := N_of_ascii c in
  if ((48 <=? n) && (n <=? 57))%N then Some (n - 48)%N
  else if ((97 <=? n) && (n <=? 102))%N then Some (n - 87)%N
  else if ((65 <=? n) && (n <=? 70))%N then Some (n - 55)%N
  else None.

Inductive ReadState : Type :=
| WantLit                (* at the start or after a [+] *)
| Lit                    (* inside a literal *)
| LitEsc                 (* after a backslash *)
| LitHex                 (* after [\x] *)
| LitHexLow (hi : N)     (* after [\x] and the first digit *)
| GotLit                 (* a literal has just been closed *)
| ReadError.

Definition readStep (st : ReadState * list byte) (c : ascii)
  : ReadState * list byte :=
  let (q, acc) := st in
  match q with
  | WantLit =>
      if (c =? dq)%char then (Lit, acc)
      else if isBlank c || (c =? nl)%char then (WantLit, acc)
      else (ReadError, acc)
  | Lit =>
      if (c =? dq)%char then (GotLit, acc)
      else if (c =? "\")%char then (LitEsc, acc)
      else if (c =? nl)%char then (ReadError, acc)
      else (Lit, (acc ++ [byte_of_ascii c])%list)
  | LitEsc => if (c =? "x")%char then (LitHex, acc) else (ReadError, acc)
  | LitHex =>
      match hexValue c with
      | Some h => (LitHexLow h, acc)
      | None => (ReadError, acc)
      end
  | LitHexLow h =>
      match hexValue c with
      | Some l =>
          match Byte.of_N (16 * h + l) with
          | Some x => (Lit, (acc ++ [x])%list)
          | None => (ReadError, acc)
          end
      | None => (ReadError, acc)
      end
  | GotLit =>
      if (c =? "+")%char then (WantLit, acc)
      else if isBlank c then (GotLit, acc)
      else (ReadError, acc)
  | ReadError => (ReadError, acc)
  end.

Fixpoint readRun (st : ReadState * list byte) (s : string)
  : ReadState * list byte :=
  match s with
  | EmptyString => st
  | String c s' => readRun (readStep st c) s'
  end.

Definition literalValue (s : string) : option (list byte) :=
  match readRun (WantLit, []) s with
  | (GotLit, acc) => Some acc
  | _ => None
  end.

Fixpoint allChars (p : ascii -> bool) (s : string) : bool :=
  match s with
  | EmptyString => true
  | String c s' => p c && allChars p s'
  end.

Fixpoint countChar (c : ascii) (s : string) : nat :=
  match s with
  | EmptyString => O
  | String d s' => ((if (d =? c)%char then 1 else 0) + countChar c s')%nat
  end.

Definition isLowerHex (c : ascii) : bool :=
  let n := N_of_ascii c in
  (((48 <=? n) && (n <=? 57)) || ((97 <=? n) && (n <=? 102)))%N.

(** The characters a literal expression is written with. *)
Definition isValueChar (c : ascii) : bool :=
  (c =? dq)%char || (c =? "\")%char || (c =? "x")%char || isLowerHex c
  || (c =? " ")%char || (c =? "+")%char || (c =? nl)%char || (c =? tab)%char.

(** The bytes of an identifier: an ASCII letter, the underscore, or a
    byte of a multi-byte UTF-8 sequence. *)
Definition isNameByte (c : ascii) : bool :=
  let n := N_of_ascii c in
  (((65 <=? n) && (n <=? 90)) || ((97 <=? n) && (n <=? 122))
   || (n =? 95) || (128 <=? n))%N.

(** ** Flags changed in one field *)

Definition withDecl (f : Flags) (decl : string) : Flags :=
  {| Decl := decl; Compress := Compress f; Export := Export f;
     Import := Import f; Name := Name f; Output := Output f;
     Package := Package f; Typ := Typ f |}.

Definition withCompress (f : Flags) (compress : string) : Flags :=
  {| Decl := Decl f; Compress := compress; Export := Export f;
     Import := Import f; Name := Name f; Output := Output f;
     Package := Package f; Typ := Typ f |}.

Definition withTyp (f : Flags) (typ : string) : Flags :=
  {| Decl := Decl f; Compress := Compress f; Export := Export f;
     Import := Import f; Name := Name f; Output := Output f;
     Package := Package f; Typ := typ |}.

(** ** Import paths and package names

    An import declaration names a path; it gives the file the package
    found at that path, under the name of that package.  [packageAt p]
    is the name of the package at the path [p] in the Go installation
    that builds the generated file, [None] when there is no package at
    [p]. *)
Class GoPackages : Type := {
  packageAt : string -> option string
}.

(** The package names that a list of import paths gives a file. *)
Definition providedNames {G : GoPackages} (imports : list string)
  : list string :=
  flat_map (fun p => match packageAt p with
                     | Some q => [q]
                     | None => []
                     end) imports.

(** The two packages that the func shape uses whatever the compressor:
    their paths are their names. *)
Class StandardPackages (G : GoPackages) : Prop := {
  io_at : packageAt "io" = Some "io";
  strings_at : packageAt "strings" = Some "strings"
}.

(** The qualifier of the call that [FuncDecoder] writes first:
    [ioutil.NopCloser] or [gzip.NewReader]. *)
Definition decoderPackage (c : Compressor) : string :=
  match c with
  | noCompressor => "ioutil"
  | gzipCompressor => "gzip"
  end.

(** The packages of Go's standard library that the generated code uses.
    [ioutil] is at [io/ioutil] and [gzip] at [compress/gzip], the paths
    under which [gobake.go] itself imports them; the standard library
    has no package at the paths [ioutil] and [gzip]. *)
#[local] Instance StandardLibrary : GoPackages := {|
  packageAt := fun p =>
    if (p =? "io")%string then Some "io"
    else if (p =? "strings")%string then Some "strings"
    else if (p =? "io/ioutil")%string then Some "ioutil"
    else if (p =? "compress/gzip")%string then Some "gzip"
    else None
|}.

(** ** The generated text in two parts

    The first line of the header echoes [os.Args], the command line that
    the flags are parsed from; all the rest is decided by the flags and
    the input. *)

Definition echoLine (args : list string) : string :=
  "// File generated by " ++ ch dq ++ "gobake"
    ++ concatMap (fun a => " " ++ a) args ++ ch dq ++ ch nl.

Section BelowEcho.

Context {U : Unicode} {H : Host}.

Definition textBelowEcho (f : Flags) (file : option string) (b : list byte)
  : string :=
  "// DO NOT EDIT!" ++ ch nl ++ ch nl ++ "package "
    ++ packageName f ++ ch nl ++ ch nl
    ++ importBlock (collectImports f)
    ++ declarationText f file b.

End BelowEcho.

(** ** Configurations used in the examples *)

Definition flagsOf (decl compress : string) (export : bool)
  (import name typ : string) : Flags :=
  {| Decl := decl; Compress := compress; Export := export; Import := import;
     Name := name; Output := ""; Package := ""; Typ := typ |}.

Definition constWithImport : Flags :=
  flagsOf "const" "" false "fmt" "x" "string".
Definition varQualified : Flags :=
  flagsOf "var" "" false "" "x" "template.HTML".
Definition constTyped : Flags := flagsOf "const" "" false "" "" "T".
Definition constGzip : Flags := flagsOf "const" "gzip" false "" "" "string".
Definition funcGzip : Flags := flagsOf "func" "gzip" true "" "cfg.XML" "string".
Definition funcPlain : Flags := flagsOf "func" "" true "" "cfg.XML" "string".
Definition funcWithFmt : Flags := flagsOf "func" "" false "fmt" "" "string".
Definition funcWithIo : Flags := flagsOf "func" "" false "io" "" "string".


Definition zeros33 : list byte := repeat x00 33.

(** * Properties *)

(** ** Strings *)

Lemma append_assoc (a b c : string) : (a ++ b) ++ c = a ++ b ++ c.
Proof.
  induction a as [|x a IH]; simpl; [reflexivity | now rewrite IH].
Qed.

Lemma append_nil_r (a : string) : a ++ "" = a.
Proof.
  induction a as [|x a IH]; simpl; [reflexivity | now rewrite IH].
Qed.

Lemma countChar_app (c : ascii) (u v : string) :
  countChar c (u ++ v) = (countChar c u + countChar c v)%nat.
Proof.
  induction u as [|a u IH]; [reflexivity|].
  cbn [append countChar]. rewrite IH. lia.
Qed.

Lemma prefix_append (a b : string) : String.prefix a (a ++ b) = true.
Proof.
  induction a as [|c a IH]; [now destruct b|].
  cbn [append String.prefix].
  destruct (ascii_dec c c) as [_|N]; [exact IH | now elim N].
Qed.

Lemma concat_two (sep a b : string) (l : list string) :
  String.concat sep (a :: b :: l) = a ++ sep ++ String.concat sep (b :: l).
Proof. reflexivity. Qed.

Lemma hextable_index_defined (x : byte) :
  String.get (N.to_nat (N.shiftr (Byte.to_N x) 4)) hextable <> None /\
  String.get (N.to_nat (N.land (Byte.to_N x) 15)) hextable <> None.
Proof.
  destruct x; split; vm_compute; discriminate.
Qed.

(** ** The loop of formatValue, chunk by chunk *)

Lemma rem_offset (i0 j wrap : Z) :
  0 <= i0 -> Z.rem i0 wrap = 0 -> 0 <= j < wrap -> Z.rem (i0 + j) wrap = j.
Proof.
  intros Hi H0 Hj.
  rewrite Z.rem_mod_nonneg in * by lia.
  rewrite Z.add_mod, H0 by lia.
  rewrite Z.add_0_l, Z.mod_mod by lia.
  now apply Z.mod_small.
Qed.

Lemma rem_next_chunk (i0 wrap : Z) :
  0 <= i0 -> 0 < wrap -> Z.rem i0 wrap = 0 -> Z.rem (i0 + wrap) wrap = 0.
Proof.
  intros Hi Hw H0.
  rewrite Z.rem_mod_nonneg in * by lia.
  rewrite Z.add_mod, H0, Z.mod_same by lia.
  reflexivity.
Qed.

Section Loop.

Variables (wrap indent : Z) (typ : string) (n : Z).

Lemma formatByte_inner (i : Z) (x : byte) (pre : bool) :
  (n >? wrap) && (wrap >? 0) && (Z.rem i wrap =? 0) = pre ->
  i <> n - 1 ->
  (wrap >? 0) && (Z.rem i wrap =? wrap - 1) = false ->
  formatByte wrap indent typ n i x
  = (if pre then tabs indent ++ ch dq else "") ++ escapeByte x.
Proof.
  intros Hpre Hlast Hbreak. unfold formatByte.
  rewrite Hpre, Hbreak.
  destruct (Z.eqb_spec i (n - 1)) as [E|_]; [contradiction|].
  unfold escapeByte. simpl. rewrite ?append_nil_r. reflexivity.
Qed.

Lemma formatByte_last (i : Z) (x : byte) (pre : bool) :
  (n >? wrap) && (wrap >? 0) && (Z.rem i wrap =? 0) = pre ->
  i = n - 1 ->
  formatByte wrap indent typ n i x
  = (if pre then tabs indent ++ ch dq else "")
      ++ escapeByte x ++ ch dq ++ closeOf typ ++ ch nl.
Proof.
  intros Hpre Hlast. unfold formatByte.
  rewrite Hpre. rewrite (proj2 (Z.eqb_eq _ _) Hlast).
  reflexivity.
Qed.

Lemma formatByte_break (i : Z) (x : byte) (pre : bool) :
  (n >? wrap) && (wrap >? 0) && (Z.rem i wrap =? 0) = pre ->
  i <> n - 1 ->
  (wrap >? 0) && (Z.rem i wrap =? wrap - 1) = true ->
  formatByte wrap indent typ n i x
  = (if pre then tabs indent ++ ch dq else "")
      ++ escapeByte x ++ ch dq ++ plusBreak.
Proof.
  intros Hpre Hlast Hbreak. unfold formatByte.
  rewrite Hpre, Hbreak.
  destruct (Z.eqb_spec i (n - 1)) as [E|_]; [contradiction|].
  reflexivity.
Qed.

(** Without wrapping the loop writes the escapes and closes once. *)
Lemma formatLoop_flat (rest : list byte) :
  forall i,
    0 <= i ->
    n = i + Z.of_nat (List.length rest) ->
    (wrap >? 0) && (n >? wrap) = false ->
    rest <> [] ->
    formatLoop wrap indent typ n i rest
    = escape rest ++ ch dq ++ closeOf typ ++ ch nl.
Proof.
  induction rest as [|x rest IH]; intros i Hi Hn Hw Hne; [congruence|].
  assert (Hpre : (n >? wrap) && (wrap >? 0) && (Z.rem i wrap =? 0) = false).
  { destruct (n >? wrap), (wrap >? 0); simpl in *; congruence. }
  cbn [formatLoop escape]. cbn [List.length] in Hn.
  destruct rest as [|y rest].
  - rewrite (formatByte_last i x false Hpre) by (cbn [List.length] in Hn; lia).
    cbn [formatLoop escape]. simpl. rewrite ?append_nil_r.
    now rewrite ?append_assoc.
  - rewrite (formatByte_inner i x false Hpre).
    + rewrite (IH (i + 1)) by
        (try assumption; try discriminate; cbn [List.length] in *; lia).
      simpl. now rewrite ?append_assoc.
    + cbn [List.length] in Hn. lia.
    + destruct (Z.gtb_spec wrap 0) as [Hpos|]; [|reflexivity].
      simpl. apply Z.eqb_neq.
      assert (Hle : n <= wrap).
      { destruct (Z.gtb_spec n wrap); simpl in Hw; [discriminate|lia]. }
      cbn [List.length] in Hn.
      rewrite Z.rem_small by lia. lia.
Qed.

Hypothesis wrap_pos : 0 < wrap.
Hypothesis wrapping : wrap < n.

(** One chunk: [c] is what is left of the chunk that starts at index
    [i0], of which [j] bytes are written already. *)
Lemma formatLoop_chunk (c : list byte) :
  forall j i0 rest',
    0 <= i0 -> Z.rem i0 wrap = 0 -> 0 <= j ->
    c <> [] ->
    j + Z.of_nat (List.length c) <= wrap ->
    (rest' = [] \/ j + Z.of_nat (List.length c) = wrap) ->
    n = i0 + j + Z.of_nat (List.length c) + Z.of_nat (List.length rest') ->
    formatLoop wrap indent typ n (i0 + j) (c ++ rest')
    = (if j =? 0 then tabs indent ++ ch dq else "")
        ++ escape c ++ ch dq
        ++ match rest' with
           | [] => closeOf typ ++ ch nl
           | _ :: _ =>
               plusBreak
                 ++ formatLoop wrap indent typ n
                      (i0 + j + Z.of_nat (List.length c)) rest'
           end.
Proof.
  induction c as [|x c IH]; intros j i0 rest' Hi0 Hrem Hj Hne Hfit Hfull Hn;
    [congruence|].
  cbn [List.length] in *.
  assert (Hoff : Z.rem (i0 + j) wrap = j) by (apply rem_offset; lia).
  assert (Hpre : (n >? wrap) && (wrap >? 0) && (Z.rem (i0 + j) wrap =? 0)
                 = (j =? 0)).
  { rewrite Hoff.
    destruct (Z.gtb_spec n wrap); [|lia].
    destruct (Z.gtb_spec wrap 0); [|lia]. reflexivity. }
  cbn [app formatLoop escape].
  destruct c as [|y c].
  - cbn [List.length] in *. cbn [app].
    destruct rest' as [|z rest'].
    + rewrite (formatByte_last _ x _ Hpre) by (cbn [List.length] in Hn; lia).
      cbn [formatLoop escape]. rewrite ?append_nil_r.
      now rewrite ?append_assoc.
    + destruct Hfull as [Hnil|Hfull]; [discriminate|].
      rewrite (formatByte_break _ x _ Hpre).
      * replace (i0 + j + Z.of_nat 1) with (i0 + j + 1) by lia.
        cbn [escape]. rewrite ?append_nil_r. now rewrite ?append_assoc.
      * cbn [List.length] in Hn. lia.
      * rewrite Hoff.
        destruct (Z.gtb_spec wrap 0); [|lia]. simpl.
        apply Z.eqb_eq. lia.
  - rewrite (formatByte_inner _ x _ Hpre).
    + replace (i0 + j + 1) with (i0 + (j + 1)) by lia.
      assert (Hfull' : rest' = [] \/
                       j + 1 + Z.of_nat (List.length (y :: c)) = wrap).
      { destruct Hfull as [Hnil|Hfull]; [now left|right; lia]. }
      rewrite (IH (j + 1) i0 rest') by
        (try assumption; try discriminate; lia).
      destruct (Z.eqb_spec (j + 1) 0) as [E|_]; [lia|].
      replace (i0 + (j + 1) + Z.of_nat (List.length (y :: c)))
        with (i0 + j + Z.of_nat (S (List.length (y :: c)))) by lia.
      cbn [append]. now rewrite ?append_assoc.
    + cbn [List.length] in *. lia.
    + rewrite Hoff. cbn [List.length] in *.
      destruct (Z.gtb_spec wrap 0); [|lia]. simpl.
      apply Z.eqb_neq. lia.
Qed.

End Loop.

(** ** Chunks *)

Lemma chunksFuel_sizes (fuel w : nat) :
  forall b,
    map (@List.length byte) (chunksFuel fuel w b)
    = chunkSizes fuel w (List.length b).
Proof.
  induction fuel as [|fuel IH]; intros b; [reflexivity|].
  destruct b as [|x b]; [reflexivity|].
  cbn [chunksFuel chunkSizes map]. cbn [List.length].
  rewrite IH, length_firstn, length_skipn. reflexivity.
Qed.

Lemma chunksFuel_concat (fuel w : nat) :
  forall b,
    (0 < w)%nat -> (List.length b <= fuel)%nat ->
    List.concat (chunksFuel fuel w b) = b.
Proof.
  induction fuel as [|fuel IH]; intros b Hw Hlen.
  - destruct b; [reflexivity | cbn [List.length] in Hlen; lia].
  - destruct b as [|x b]; [reflexivity|].
    cbn [chunksFuel List.concat].
    rewrite IH; [apply firstn_skipn | assumption |].
    rewrite length_skipn. cbn [List.length] in *. lia.
Qed.

Lemma chunksFuel_bounds (fuel w : nat) :
  forall b,
    (0 < w)%nat ->
    Forall (fun c => (1 <= List.length c <= w)%nat) (chunksFuel fuel w b).
Proof.
  induction fuel as [|fuel IH]; intros b Hw; [constructor|].
  destruct b as [|x b]; [constructor|].
  cbn [chunksFuel]. constructor; [|apply IH; assumption].
  rewrite length_firstn. cbn [List.length]. lia.
Qed.

Lemma chunksFuel_full (fuel w : nat) :
  forall b,
    Forall (fun c => List.length c = w)
           (removelast (chunksFuel fuel w b)).
Proof.
  induction fuel as [|fuel IH]; intros b; [constructor|].
  destruct b as [|x b]; [constructor|].
  cbn [chunksFuel].
  remember (chunksFuel fuel w (skipn w (x :: b))) as tl eqn:Htl.
  destruct tl as [|c tl]; [constructor|].
  change (removelast (firstn w (x :: b) :: c :: tl))
    with (firstn w (x :: b) :: removelast (c :: tl)).
  constructor.
  - (* a further chunk exists, so more than [w] bytes were left *)
    destruct (Nat.le_gt_cases (List.length (x :: b)) w) as [Hle|Hgt].
    + rewrite skipn_all2 in Htl by assumption.
      destruct fuel; discriminate.
    + rewrite length_firstn. lia.
  - rewrite Htl. apply IH.
Qed.

Section Wrapped.

Variables (wrap indent : Z) (typ : string) (n : Z).
Hypothesis wrap_pos : 0 < wrap.
Hypothesis wrapping : wrap < n.

Lemma formatLoop_chunks (fuel : nat) :
  forall rest i0,
    (List.length rest <= fuel)%nat ->
    rest <> [] ->
    0 <= i0 -> Z.rem i0 wrap = 0 ->
    n = i0 + Z.of_nat (List.length rest) ->
    formatLoop wrap indent typ n i0 rest
    = String.concat plusBreak
        (map (chunkLine indent) (chunksFuel fuel (Z.to_nat wrap) rest))
        ++ closeOf typ ++ ch nl.
Proof.
  induction fuel as [|fuel IH]; intros rest i0 Hfuel Hne Hi0 Hrem Hn.
  - destruct rest; [congruence | cbn [List.length] in Hfuel; lia].
  - destruct rest as [|x rest]; [congruence|].
    set (w := Z.to_nat wrap).
    remember (firstn w (x :: rest)) as c eqn:Ec.
    remember (skipn w (x :: rest)) as rest' eqn:Er.
    assert (Hw : (0 < w)%nat) by (unfold w; lia).
    assert (Hsplit : x :: rest = (c ++ rest')%list)
      by (subst c rest'; symmetry; apply firstn_skipn).
    assert (Hc : List.length c = Nat.min w (List.length (x :: rest)))
      by (subst c; apply length_firstn).
    assert (Hr : List.length rest' = (List.length (x :: rest) - w)%nat)
      by (subst rest'; apply length_skipn).
    assert (Hcne : c <> []).
    { intros E. rewrite E in Hc. cbn [List.length] in Hc. lia. }
    assert (Hlen : Z.of_nat (List.length (x :: rest))
                   = Z.of_nat (List.length c) + Z.of_nat (List.length rest')).
    { rewrite Hsplit, length_app. lia. }
    assert (Hfull : rest' = [] \/ 0 + Z.of_nat (List.length c) = wrap).
    { destruct rest' as [|y r2]; [now left|right].
      cbn [List.length] in *. lia. }
    cbn [chunksFuel]. fold w. rewrite <- Ec, <- Er.
    replace i0 with (i0 + 0) at 1 by lia.
    rewrite Hsplit.
    rewrite (formatLoop_chunk wrap indent typ n wrap_pos wrapping c 0 i0
               rest') by (try assumption; lia).
    change (0 =? 0) with true. cbn iota.
    rewrite Z.add_0_r.
    destruct rest' as [|y r2].
    + replace (chunksFuel fuel w []) with (@nil (list byte))
        by (destruct fuel; reflexivity).
      cbn [map String.concat]. unfold chunkLine, quoted.
      now rewrite ?append_assoc.
    + destruct Hfull as [Hnil|Hfull]; [discriminate|].
      rewrite (IH (y :: r2) (i0 + Z.of_nat (List.length c))).
      * destruct fuel as [|fuel'];
          [cbn [List.length] in *; lia|].
        fold w.
        change (chunksFuel (S fuel') w (y :: r2))
          with (firstn w (y :: r2)
                  :: chunksFuel fuel' w (skipn w (y :: r2))).
        cbn [map]. rewrite concat_two.
        unfold chunkLine, quoted.
        now rewrite ?append_assoc.
      * cbn [List.length] in *. lia.
      * discriminate.
      * lia.
      * replace (Z.of_nat (List.length c)) with wrap by lia.
        apply rem_next_chunk; assumption.
      * lia.
Qed.

End Wrapped.

(** ** formatValue in terms of its chunks *)

Lemma closeOf_effective (typ : string) :
  closeOf (if (typ =? "string")%string then "" else typ) = convClose typ.
Proof.
  unfold closeOf, convClose, isConversion.
  destruct (typ =? "string")%string; [now rewrite andb_false_r|].
  now destruct (typ =? "")%string.
Qed.

Lemma open_effective (typ : string) :
  (let t := if (typ =? "string")%string then "" else typ in
   if (t =? "")%string then "" else t ++ "(") = convOpen typ.
Proof.
  unfold convOpen, isConversion. cbn zeta.
  destruct (typ =? "string")%string; [now rewrite andb_false_r|].
  now destruct (typ =? "")%string.
Qed.

Lemma formatValue_shape (wrap indent : Z) (typ : string) (b : list byte) :
  formatValue wrap indent typ b
  = convOpen typ ++ literalExpr wrap indent b ++ convClose typ ++ ch nl.
Proof.
  unfold formatValue. cbn zeta.
  set (t := if (typ =? "string")%string then "" else typ).
  pose proof (open_effective typ) as Hopen. cbn zeta in Hopen. fold t in Hopen.
  pose proof (closeOf_effective typ) as Hclose. fold t in Hclose.
  destruct b as [|x b].
  - change (Z.of_nat (List.length (@nil byte)) =? 0) with true. cbn iota.
    unfold literalExpr, wraps. rewrite andb_comm. cbn [List.length].
    replace (Z.of_nat 0 >? wrap) with (0 >? wrap) by reflexivity.
    assert (Hw : (0 >? wrap) && (wrap >? 0) = false).
    { destruct (Z.gtb_spec 0 wrap), (Z.gtb_spec wrap 0); try reflexivity; lia. }
    rewrite Hw. rewrite <- Hopen, <- Hclose. unfold closeOf.
    destruct (t =? "")%string; cbn; rewrite ?append_assoc; reflexivity.
  - destruct (Z.eqb_spec (Z.of_nat (List.length (x :: b))) 0) as [E|_];
      [cbn [List.length] in E; lia|].
    rewrite Hopen. f_equal. unfold literalExpr, wraps.
    destruct ((wrap >? 0) && (Z.of_nat (List.length (x :: b)) >? wrap))
      eqn:Hw.
    + apply andb_true_iff in Hw. destruct Hw as [Hpos Hgt].
      apply Z.gtb_lt in Hpos, Hgt.
      rewrite (formatLoop_chunks wrap indent t _ Hpos Hgt
                 (List.length (x :: b))); try lia; try discriminate;
        try reflexivity.
      rewrite Hclose. unfold chunks. now rewrite ?append_assoc.
    + rewrite formatLoop_flat; try lia; try discriminate; try assumption.
      rewrite Hclose. unfold quoted. now rewrite ?append_assoc.
Qed.

(** ** Claims about formatValue *)

Lemma wraps_false_iff (wrap : Z) (b : list byte) :
  wraps wrap b = false <-> wrap <= 0 \/ Z.of_nat (List.length b) <= wrap.
Proof.
  unfold wraps.
  destruct (Z.gtb_spec wrap 0), (Z.gtb_spec (Z.of_nat (List.length b)) wrap);
    cbn; split; intros; try reflexivity; try discriminate; lia.
Qed.

Lemma wraps_true_iff (wrap : Z) (b : list byte) :
  wraps wrap b = true <-> 0 < wrap < Z.of_nat (List.length b).
Proof.
  unfold wraps.
  destruct (Z.gtb_spec wrap 0), (Z.gtb_spec (Z.of_nat (List.length b)) wrap);
    cbn; split; intros; try reflexivity; try discriminate; lia.
Qed.

Lemma chunks_nonempty (w : nat) (b : list byte) :
  b <> [] -> chunks w b <> [].
Proof.
  unfold chunks. destruct b as [|x b]; [congruence|]. discriminate.
Qed.

(** C4. Without wrapping ([wrap <= 0] or a payload no longer than
    [wrap]) the value is one quoted literal of escapes.  With wrapping it
    is the empty literal, a [+] and a line break, and then every chunk of
    [wrap] bytes, the first one included, on a line of its own indented
    by [indent] tabs, the lines joined by [+]; the chunks concatenate to
    the payload, all but the last have [wrap] bytes and the last has
    between 1 and [wrap].  A payload of 33 bytes at [wrap = 16] has the
    chunks of 16, 16 and 1 bytes. *)
Theorem formatValue_chunks (wrap indent : Z) (typ : string) (b : list byte) :
  (wrap <= 0 \/ Z.of_nat (List.length b) <= wrap ->
   formatValue wrap indent typ b
   = convOpen typ ++ quoted b ++ convClose typ ++ ch nl)
  /\
  (0 < wrap < Z.of_nat (List.length b) ->
   let cs := chunks (Z.to_nat wrap) b in
   formatValue wrap indent typ b
   = convOpen typ
       ++ (ch dq ++ ch dq ++ plusBreak
             ++ String.concat plusBreak (map (chunkLine indent) cs))
       ++ convClose typ ++ ch nl
   /\ List.concat cs = b
   /\ Forall (fun c => Z.of_nat (List.length c) = wrap) (removelast cs)
   /\ Forall (fun c => 1 <= Z.of_nat (List.length c) <= wrap) cs)
  /\
  (List.length b = 33%nat ->
   map (@List.length byte) (chunks 16 b) = [16; 16; 1]%nat).
Proof.
  split; [|split].
  - intros Hflat. apply wraps_false_iff in Hflat.
    rewrite formatValue_shape. unfold literalExpr. now rewrite Hflat.
  - intros Hwrap cs. pose proof Hwrap as Hw. apply wraps_true_iff in Hw.
    split; [|split; [|split]].
    + rewrite formatValue_shape. unfold literalExpr. now rewrite Hw.
    + apply chunksFuel_concat; lia.
    + eapply Forall_impl; [|apply chunksFuel_full].
      cbn beta. intros c Hc. lia.
    + eapply Forall_impl; [|apply chunksFuel_bounds; lia].
      cbn beta. intros c Hc. lia.
  - intros Hlen. unfold chunks. rewrite chunksFuel_sizes, Hlen. reflexivity.
Qed.

Lemma formatValue_chunks_witness :
  formatValue 0 1 "T" [x68; x69]
  = convOpen "T" ++ quoted [x68; x69] ++ convClose "T" ++ ch nl
  /\ formatValue 2 1 "" [x68; x69; x0a]
     = convOpen ""
         ++ (ch dq ++ ch dq ++ plusBreak
               ++ String.concat plusBreak
                    (map (chunkLine 1) (chunks 2 [x68; x69; x0a])))
         ++ convClose "" ++ ch nl
  /\ map (@List.length byte) (chunks 16 zeros33) = [16; 16; 1]%nat.
Proof.
  split; [|split].
  - apply (proj1 (formatValue_chunks 0 1 "T" [x68; x69])). left. lia.
  - apply (proj1 (proj2 (formatValue_chunks 2 1 "" [x68; x69; x0a]))).
    cbn. lia.
  - apply (proj2 (proj2 (formatValue_chunks 16 1 "" zeros33))).
    reflexivity.
Defined.

(** C4, as stated, fails: at [wrap = 16] a payload of 33 bytes is not
    rendered with its first chunk on the opening line; the value has four
    literals, the empty one and three chunks, and the first chunk starts
    an indented line like the others. *)
Lemma formatValue_first_chunk_counterexample :
  formatValue 16 1 "" zeros33 <> claimedWrapped 16 1 zeros33 ++ ch nl
  /\ countLiterals ExpectLit (formatValue 16 1 "" zeros33) = 4%nat
  /\ String.prefix
       (ch dq ++ ch dq ++ " +" ++ ch nl ++ ch tab ++ ch dq ++ "\x00")
       (formatValue 16 1 "" zeros33) = true.
Proof.
  split; [|split].
  - intros E. vm_compute in E. discriminate E.
  - vm_compute. reflexivity.
  - vm_compute. reflexivity.
Qed.

(** ** The value is a concatenation of literals *)

Lemma litRun_app (a b : string) :
  forall st, litRun st (a ++ b) = litRun (litRun st a) b.
Proof.
  induction a as [|c a IH]; intros st; [reflexivity | apply IH].
Qed.

Lemma litRun_escapeByte (x : byte) : litRun InLit (escapeByte x) = InLit.
Proof. destruct x; reflexivity. Qed.

Lemma litRun_escape (b : list byte) : litRun InLit (escape b) = InLit.
Proof.
  induction b as [|x b IH]; [reflexivity|].
  cbn [escape]. now rewrite litRun_app, litRun_escapeByte.
Qed.

Lemma litRun_quoted (b : list byte) : litRun ExpectLit (quoted b) = AfterLit.
Proof.
  unfold quoted. rewrite litRun_app. cbn [litRun ch].
  change (litStep ExpectLit dq) with InLit.
  now rewrite litRun_app, litRun_escape.
Qed.

Lemma litRun_tabs (k : nat) : litRun ExpectLit (tabs_nat k) = ExpectLit.
Proof. induction k as [|k IH]; [reflexivity | exact IH]. Qed.

Lemma litRun_chunkLine (indent : Z) (c : list byte) :
  litRun ExpectLit (chunkLine indent c) = AfterLit.
Proof.
  unfold chunkLine, tabs. now rewrite litRun_app, litRun_tabs, litRun_quoted.
Qed.

Lemma litRun_lines (indent : Z) (cs : list (list byte)) :
  cs <> [] ->
  litRun ExpectLit (String.concat plusBreak (map (chunkLine indent) cs))
  = AfterLit.
Proof.
  induction cs as [|c cs IH]; intros Hne; [congruence|].
  destruct cs as [|d cs]; [apply litRun_chunkLine|].
  cbn [map]. rewrite concat_two.
  rewrite litRun_app, litRun_chunkLine, litRun_app.
  change (litRun AfterLit plusBreak) with ExpectLit.
  apply IH. discriminate.
Qed.

Lemma wraps_nonempty (wrap : Z) (b : list byte) :
  wraps wrap b = true -> b <> [].
Proof.
  intros Hw E. subst b. apply wraps_true_iff in Hw. cbn in Hw. lia.
Qed.

Lemma literalExpr_recognised (wrap indent : Z) (b : list byte) :
  litRun ExpectLit (literalExpr wrap indent b) = AfterLit.
Proof.
  unfold literalExpr. destruct (wraps wrap b) eqn:Hw.
  - rewrite !litRun_app.
    change (litRun (litRun (litRun ExpectLit (ch dq)) (ch dq)) plusBreak)
      with ExpectLit.
    apply litRun_lines, chunks_nonempty, (wraps_nonempty wrap), Hw.
  - apply litRun_quoted.
Qed.

Lemma balanceRun_app (a b : string) :
  forall st, balanceRun st (a ++ b) = balanceRun (balanceRun st a) b.
Proof.
  induction a as [|c a IH]; intros st; [reflexivity | apply IH].
Qed.

Lemma balanceRun_escapeByte (x : byte) (d : nat) :
  balanceRun (stringAt d) (escapeByte x) = stringAt d.
Proof. destruct x; reflexivity. Qed.

Lemma balanceRun_escape (b : list byte) (d : nat) :
  balanceRun (stringAt d) (escape b) = stringAt d.
Proof.
  induction b as [|x b IH]; [reflexivity|].
  cbn [escape]. now rewrite balanceRun_app, balanceRun_escapeByte.
Qed.

Lemma balanceRun_quoted (b : list byte) (d : nat) :
  balanceRun (codeAt d) (quoted b) = codeAt d.
Proof.
  unfold quoted. rewrite balanceRun_app.
  change (balanceRun (codeAt d) (ch dq)) with (stringAt d).
  now rewrite balanceRun_app, balanceRun_escape.
Qed.

Lemma balanceRun_tabs (k d : nat) :
  balanceRun (codeAt d) (tabs_nat k) = codeAt d.
Proof. induction k as [|k IH]; [reflexivity | exact IH]. Qed.

Lemma balanceRun_lines (indent : Z) (cs : list (list byte)) (d : nat) :
  balanceRun (codeAt d) (String.concat plusBreak (map (chunkLine indent) cs))
  = codeAt d.
Proof.
  induction cs as [|c cs IH]; [reflexivity|].
  assert (Hline : balanceRun (codeAt d) (chunkLine indent c) = codeAt d).
  { unfold chunkLine, tabs.
    now rewrite balanceRun_app, balanceRun_tabs, balanceRun_quoted. }
  destruct cs as [|c' cs]; [exact Hline|].
  cbn [map]. rewrite concat_two, balanceRun_app, Hline, balanceRun_app.
  exact IH.
Qed.

Lemma balanceRun_literalExpr (wrap indent : Z) (b : list byte) (d : nat) :
  balanceRun (codeAt d) (literalExpr wrap indent b) = codeAt d.
Proof.
  unfold literalExpr. destruct (wraps wrap b); [|apply balanceRun_quoted].
  rewrite !balanceRun_app. apply balanceRun_lines.
Qed.

Lemma balanceRun_plainType (typ : string) (d : nat) :
  plainType typ = true -> balanceRun (codeAt d) typ = codeAt d.
Proof.
  induction typ as [|c typ IH]; intros Hplain; [reflexivity|].
  cbn [plainType] in Hplain.
  repeat (apply andb_true_iff in Hplain; destruct Hplain as [Hplain ?]).
  cbn [balanceRun]. unfold balanceStep. cbn [place codeAt].
  repeat match goal with
         | Hc : negb _ = true |- _ => apply negb_true_iff in Hc; rewrite Hc
         end.
  now apply IH.
Qed.

Lemma countChar_plus_quoted (c : list byte) :
  countChar "+" (quoted c) = O.
Proof.
  unfold quoted. rewrite !countChar_app.
  assert (Hesc : countChar "+" (escape c) = O).
  { induction c as [|x c IH]; [reflexivity|].
    cbn [escape]. rewrite countChar_app, IH. destruct x; reflexivity. }
  rewrite Hesc. reflexivity.
Qed.

Lemma countChar_plus_chunkLine (indent : Z) (c : list byte) :
  countChar "+" (chunkLine indent c) = O.
Proof.
  unfold chunkLine, tabs. rewrite countChar_app, countChar_plus_quoted.
  induction (Z.to_nat indent) as [|k IH]; [reflexivity | exact IH].
Qed.

Lemma countChar_plus_lines (indent : Z) (cs : list (list byte)) :
  cs <> [] ->
  S (countChar "+" (String.concat plusBreak (map (chunkLine indent) cs)))
  = List.length cs.
Proof.
  induction cs as [|c cs IH]; intros Hne; [congruence|].
  destruct cs as [|d cs].
  - cbn [map String.concat List.length].
    now rewrite countChar_plus_chunkLine.
  - cbn [map]. rewrite concat_two, !countChar_app, countChar_plus_chunkLine.
    cbn [map] in IH. specialize (IH ltac:(discriminate)).
    change (countChar "+" plusBreak) with 1%nat.
    cbn [List.length] in *. lia.
Qed.

Lemma countChar_plus_literalExpr (wrap indent : Z) (b : list byte) :
  countChar "+" (literalExpr wrap indent b)
  = if wraps wrap b then List.length (chunks (Z.to_nat wrap) b) else O.
Proof.
  unfold literalExpr. destruct (wraps wrap b) eqn:Hw.
  - pose proof (countChar_plus_lines indent (chunks (Z.to_nat wrap) b)
                  (chunks_nonempty _ _ (wraps_nonempty wrap b Hw))) as Hl.
    rewrite !countChar_app.
    change (countChar "+" (ch dq)) with 0%nat.
    change (countChar "+" plusBreak) with 1%nat. lia.
  - apply countChar_plus_quoted.
Qed.

(** C5. Whatever the payload, the wrap width and the type, the value is
    [open ++ e ++ close] and a line break, where [open] and [close] are
    either both empty or the conversion call [typ(] and its [)], and [e]
    is recognised as string literals joined by [+]: every quote is
    closed, a [+] stands only between two literals and never after the
    last one, and nothing else occurs outside the literals.  A value
    that is not wrapped has no [+]; a wrapped value has as many [+] as
    chunks, the first of them between the leading empty literal and the
    first chunk, the others between two chunks.  For the empty payload
    [e] is the literal of two quotes alone.  With a type that itself has
    no quote and no parenthesis the whole value has its quotes and
    parentheses balanced. *)
Theorem formatValue_balanced (wrap indent : Z) (typ : string) (b : list byte) :
  formatValue wrap indent typ b
  = convOpen typ ++ literalExpr wrap indent b ++ convClose typ ++ ch nl
  /\ isLiteralConcat (literalExpr wrap indent b) = true
  /\ countChar "+" (literalExpr wrap indent b)
     = (if wraps wrap b then List.length (chunks (Z.to_nat wrap) b) else O)
  /\ (wraps wrap b = true ->
      String.prefix (ch dq ++ ch dq ++ plusBreak) (literalExpr wrap indent b)
      = true)
  /\ (convOpen typ = "" /\ convClose typ = ""
      \/ convOpen typ = typ ++ "(" /\ convClose typ = ")")
  /\ literalExpr wrap indent [] = ch dq ++ ch dq
  /\ formatValue wrap indent "" [] = ch dq ++ ch dq ++ ch nl
  /\ (plainType typ = true ->
      isBalanced (formatValue wrap indent typ b) = true).
Proof.
  split; [apply formatValue_shape|].
  split; [unfold isLiteralConcat; now rewrite literalExpr_recognised|].
  split; [apply countChar_plus_literalExpr|].
  split.
  { intros Hw. unfold literalExpr. rewrite Hw.
    rewrite <- !append_assoc. apply prefix_append. }
  split; [unfold convOpen, convClose; destruct (isConversion typ); auto|].
  split; [|split; [reflexivity|]].
  - unfold literalExpr.
    replace (wraps wrap []) with false; [reflexivity|].
    symmetry. apply wraps_false_iff. cbn. lia.
  - intros Hplain. unfold isBalanced.
    rewrite formatValue_shape. unfold convOpen, convClose.
    destruct (isConversion typ).
    + rewrite !balanceRun_app, balanceRun_plainType by assumption.
      change (balanceRun (codeAt 0) "(") with (codeAt 1).
      now rewrite balanceRun_literalExpr.
    + rewrite !balanceRun_app. cbn [append balanceRun].
      now rewrite balanceRun_literalExpr.
Qed.

(** C5, as stated, fails: in a wrapped value a [+] stands before the
    first chunk, after the leading empty literal; the 33 bytes at
    [wrap = 16] give three chunks and three [+], one more than there
    are places between chunks. *)
Lemma formatValue_plus_counterexample :
  List.length (chunks 16 zeros33) = 3%nat
  /\ countChar "+" (formatValue 16 1 "" zeros33) = 3%nat
  /\ String.prefix (ch dq ++ ch dq ++ " +" ++ ch nl)
       (formatValue 16 1 "" zeros33) = true.
Proof.
  split; [|split]; vm_compute; reflexivity.
Qed.

Lemma formatValue_balanced_witness :
  String.prefix (ch dq ++ ch dq ++ plusBreak) (literalExpr 16 2 zeros33) = true
  /\ isBalanced (formatValue 16 2 "template.HTML" zeros33) = true.
Proof.
  pose proof (formatValue_balanced 16 2 "template.HTML" zeros33)
    as [_ [_ [_ [Hfirst [_ [_ [_ Hbal]]]]]]].
  split; [apply Hfirst | apply Hbal]; reflexivity.
Defined.

(** ** The final line break *)

Lemma lastChar_app (a b : string) :
  lastChar (a ++ b)
  = match lastChar b with
    | Some c => Some c
    | None => lastChar a
    end.
Proof.
  induction a as [|x a IH]; cbn [append lastChar].
  - now destruct (lastChar b).
  - rewrite IH. destruct (lastChar b); [reflexivity|].
    reflexivity.
Qed.

Lemma lastChar_snoc (a : string) (c : ascii) : lastChar (a ++ ch c) = Some c.
Proof. now rewrite lastChar_app. Qed.

Lemma lastChar_quoted (b : list byte) : lastChar (quoted b) = Some dq.
Proof.
  unfold quoted. now rewrite <- !append_assoc, lastChar_snoc.
Qed.

Lemma lastChar_lines (indent : Z) (cs : list (list byte)) :
  cs <> [] ->
  lastChar (String.concat plusBreak (map (chunkLine indent) cs)) = Some dq.
Proof.
  induction cs as [|c cs IH]; intros Hne; [congruence|].
  destruct cs as [|d cs].
  - cbn [map String.concat]. unfold chunkLine.
    now rewrite lastChar_app, lastChar_quoted.
  - cbn [map]. rewrite concat_two, !lastChar_app.
    cbn [map] in IH. rewrite IH by discriminate. reflexivity.
Qed.

Lemma lastChar_literalExpr (wrap indent : Z) (b : list byte) :
  lastChar (literalExpr wrap indent b) = Some dq.
Proof.
  unfold literalExpr. destruct (wraps wrap b) eqn:Hw.
  - rewrite !lastChar_app, lastChar_lines; [reflexivity|].
    apply chunks_nonempty, (wraps_nonempty wrap), Hw.
  - apply lastChar_quoted.
Qed.

(** C10. The value ends with a line break, and with one only: what
    precedes the final line break ends with the closing quote or with the
    closing parenthesis of the conversion, for every payload, wrap width,
    indentation and type. *)
Theorem formatValue_one_final_newline
  (wrap indent : Z) (typ : string) (b : list byte) :
  exists body,
    formatValue wrap indent typ b = body ++ ch nl
    /\ endsWithNewline (formatValue wrap indent typ b) = true
    /\ endsWithNewline body = false
    /\ (lastChar body = Some dq \/ lastChar body = Some ")"%char).
Proof.
  exists (convOpen typ ++ literalExpr wrap indent b ++ convClose typ).
  assert (Hlast : lastChar (convOpen typ ++ literalExpr wrap indent b
                              ++ convClose typ) = Some dq
                  \/ lastChar (convOpen typ ++ literalExpr wrap indent b
                                 ++ convClose typ) = Some ")"%char).
  { rewrite !lastChar_app, lastChar_literalExpr.
    unfold convClose. destruct (isConversion typ); [right|left]; reflexivity. }
  split; [rewrite formatValue_shape; now rewrite ?append_assoc|].
  split.
  - rewrite formatValue_shape. unfold endsWithNewline.
    now rewrite !lastChar_app.
  - split; [|exact Hlast].
    unfold endsWithNewline. destruct Hlast as [E|E]; rewrite E; reflexivity.
Qed.

(** ** The type *)

Lemma selectDeclaration_var (decl : string) :
  selectDeclaration decl = varDecl <-> decl = "var".
Proof.
  unfold selectDeclaration.
  destruct (String.eqb_spec decl "var") as [E|N].
  - tauto.
  - destruct (decl =? "const")%string; split; intros; congruence.
Qed.

Lemma effectiveType_shape (f : Flags) :
  effectiveType f
  = match selectDeclaration (Decl f) with
    | varDecl => Typ f
    | _ => ""
    end.
Proof.
  unfold effectiveType, selectDeclaration.
  destruct (Decl f =? "var")%string; [reflexivity|].
  now destruct (Decl f =? "const")%string.
Qed.



(** ** The sanitizer *)

Section SanitizeFacts.

Context {U : Unicode}.
Variable export : bool.

(** Once a rune is kept, every further rune adds exactly one rune: the
    letter itself, or an underscore. *)
Lemma declName_after_first (name : list rune) :
  forall s,
    s <> [] ->
    fold_left (declNameStep export) name s
    = (s ++ map letterOrUnderscore name)%list.
Proof.
  induction name as [|r name IH]; intros s Hne.
  - cbn. now rewrite app_nil_r.
  - cbn [fold_left map].
    assert (Hstep : declNameStep export s r
                    = (s ++ [letterOrUnderscore r])%list).
    { unfold declNameStep, letterOrUnderscore.
      destruct s as [|x s]; [congruence|].
      cbn [List.length Nat.eqb Nat.ltb Nat.leb].
      now destruct (IsLetter r). }
    rewrite Hstep, IH.
    + now rewrite <- app_assoc.
    + intros E. now apply app_eq_nil in E as [_ E].
Qed.

Lemma declName_before_first (name : list rune) :
  declNameRunes name export
  = match dropNonLetters name with
    | [] => []
    | r :: rest =>
        (if export then ToUpper r else ToLower r)
          :: map letterOrUnderscore rest
    end.
Proof.
  unfold declNameRunes.
  induction name as [|r name IH]; [reflexivity|].
  cbn [fold_left dropNonLetters]. unfold declNameStep at 2.
  destruct (IsLetter r) eqn:Hr.
  - cbn [List.length Nat.eqb app].
    rewrite declName_after_first by (destruct export; discriminate).
    now destruct export.
  - cbn [List.length Nat.ltb Nat.leb]. exact IH.
Qed.

Lemma declName_app (a z : list rune) :
  declNameRunes (a ++ z) export
  = fold_left (declNameStep export) z (declNameRunes a export).
Proof. unfold declNameRunes. apply fold_left_app. Qed.

Lemma dropNonLetters_none (name : list rune) :
  noLetters name = true -> dropNonLetters name = [].
Proof.
  induction name as [|r name IH]; [reflexivity|].
  cbn [noLetters forallb dropNonLetters]. intros Hall.
  apply andb_true_iff in Hall. destruct Hall as [Hr Hall].
  destruct (IsLetter r); [discriminate | now apply IH].
Qed.

Lemma dropNonLetters_some (name : list rune) :
  noLetters name = false -> dropNonLetters name <> [].
Proof.
  induction name as [|r name IH]; [discriminate|].
  cbn [noLetters forallb dropNonLetters]. intros Hall.
  destruct (IsLetter r); [discriminate | now apply IH].
Qed.

Lemma dropNonLetters_head (name : list rune) (r : rune) (rest : list rune) :
  dropNonLetters name = r :: rest -> IsLetter r = true.
Proof.
  induction name as [|x name IH]; [discriminate|].
  cbn [dropNonLetters]. destruct (IsLetter x) eqn:Hx; [|exact IH].
  intros E. now injection E as -> _.
Qed.

Lemma declName_no_letters (name : list rune) :
  noLetters name = true -> declNameRunes name export = [].
Proof.
  intros Hno. now rewrite declName_before_first, dropNonLetters_none.
Qed.

Lemma map_underscores (run : list rune) :
  noLetters run = true ->
  map letterOrUnderscore run = repeat underscore (List.length run).
Proof.
  induction run as [|r run IH]; [reflexivity|].
  cbn [noLetters forallb map List.length repeat]. intros Hall.
  apply andb_true_iff in Hall. destruct Hall as [Hr Hall].
  unfold letterOrUnderscore at 1.
  destruct (IsLetter r); [discriminate|]. now rewrite IH.
Qed.

Lemma declName_head_letter `{!UnicodeFacts U} (name : list rune) :
  match declNameRunes name export with
  | [] => True
  | r :: _ => IsLetter r = true
  end.
Proof.
  rewrite declName_before_first.
  destruct (dropNonLetters name) as [|r rest] eqn:Hd; [exact I|].
  pose proof (dropNonLetters_head name r rest Hd) as Hr.
  destruct export; [now apply upper_letter | now apply lower_letter].
Qed.

Lemma underscore_no_letter `{!UnicodeFacts U} :
  IsLetter underscore = false.
Proof.
  destruct (IsLetter underscore) eqn:Hu; [|reflexivity].
  apply letter_ascii in Hu; [discriminate Hu | unfold underscore; lia].
Qed.

(** C3. For every name and export flag: a run of non-letters after a
    kept letter becomes one underscore for each of its runes; the
    non-letters before the first letter are dropped; and, the case
    mappings sending letters to letters, the result never begins with
    an underscore. *)
Theorem declName_underscores :
  (forall a run z,
      noLetters a = false -> noLetters run = true ->
      declNameRunes (a ++ run ++ z) export
      = (declNameRunes a export
           ++ repeat underscore (List.length run)
           ++ map letterOrUnderscore z)%list)
  /\ (forall pre z,
         noLetters pre = true ->
         declNameRunes (pre ++ z) export = declNameRunes z export)
  /\ (UnicodeFacts U ->
      forall name, hd_error (declNameRunes name export) <> Some underscore).
Proof.
  split; [|split].
  - intros a run z Ha Hrun.
    rewrite declName_app, declName_after_first.
    + now rewrite map_app, map_underscores.
    + rewrite declName_before_first.
      pose proof (dropNonLetters_some a Ha) as Hd.
      destruct (dropNonLetters a); [congruence | discriminate].
  - intros pre z Hpre.
    rewrite declName_app, declName_no_letters by assumption. reflexivity.
  - intros Facts name Hhd.
    pose proof (declName_head_letter name) as Hletter.
    destruct (declNameRunes name export) as [|r rest]; [discriminate|].
    cbn in Hhd. injection Hhd as ->.
    rewrite underscore_no_letter in Hletter. discriminate.
Qed.

End SanitizeFacts.

Lemma ascii_unicode_facts : UnicodeFacts AsciiUnicode.
Proof.
  split; cbn; unfold asciiIsLetter; intros r.
  - tauto.
  - intros Hr. destruct ((97 <=? r) && (r <=? 122)) eqn:E; lia.
  - intros Hr. destruct ((65 <=? r) && (r <=? 90)) eqn:E; lia.
Qed.

Lemma declName_underscores_witness :
  declNameRunes (asciiRunes "a" ++ asciiRunes "./" ++ asciiRunes "b9") false
  = (declNameRunes (asciiRunes "a") false
       ++ repeat underscore 2 ++ asciiRunes "b_")%list
  /\ declNameRunes (asciiRunes "./" ++ asciiRunes "cfg") true
     = declNameRunes (asciiRunes "cfg") true
  /\ hd_error (declNameRunes (asciiRunes "_x") false) <> Some underscore.
Proof.
  split; [|split].
  - apply (proj1 (declName_underscores (U := AsciiUnicode) false)
             (asciiRunes "a") (asciiRunes "./") (asciiRunes "b9"));
      reflexivity.
  - apply (proj1 (proj2 (declName_underscores (U := AsciiUnicode) true))
             (asciiRunes "./") (asciiRunes "cfg")); reflexivity.
  - apply (proj2 (proj2 (declName_underscores (U := AsciiUnicode) false))
             ascii_unicode_facts (asciiRunes "_x")).
Defined.

(** C3, as stated, fails: a run of two non-letters after a kept letter
    gives two underscores, not one. *)
Lemma declName_run_counterexample :
  getDeclName "a..b" false = "a__b"
  /\ getDeclName "a..b" false <> "a_b"
  /\ declNameRunes (asciiRunes "a..b") false
     <> collapseRuns (asciiRunes "a..b") false.
Proof.
  split; [reflexivity|]. split; intros E; vm_compute in E; discriminate E.
Qed.

(** ** The import list *)

Lemma gatherImports_split (f : Flags) :
  gatherImports f = (shapeImports f ++ extraImport f)%list.
Proof.
  unfold gatherImports, shapeImports, extraImport. cbn zeta.
  destruct (isFuncDecl (selectDeclaration (Decl f)));
    destruct (Import f =? "")%string; cbn [app];
    rewrite ?app_nil_r; reflexivity.
Qed.

Lemma insertString_perm (x : string) (l : list string) :
  Permutation (insertString x l) (x :: l).
Proof.
  induction l as [|y l IH]; cbn [insertString]; [reflexivity|].
  destruct (x <=? y)%string; [reflexivity|].
  rewrite IH. apply perm_swap.
Qed.

Lemma sortStrings_perm (l : list string) : Permutation (sortStrings l) l.
Proof.
  induction l as [|x l IH]; cbn [sortStrings]; [reflexivity|].
  rewrite insertString_perm. now constructor.
Qed.

Lemma insertString_hd (x a : string) (l : list string) :
  stringLe a x -> HdRel stringLe a l -> HdRel stringLe a (insertString x l).
Proof.
  intros Hax Hhd. destruct l as [|y l]; cbn [insertString].
  - now constructor.
  - destruct (x <=? y)%string; constructor; [assumption|].
    now inversion Hhd.
Qed.

Lemma insertString_sorted (x : string) (l : list string) :
  Sorted stringLe l -> Sorted stringLe (insertString x l).
Proof.
  induction l as [|y l IH]; intros Hs; cbn [insertString].
  - repeat constructor.
  - destruct (x <=? y)%string eqn:Hxy.
    + constructor; [assumption | now constructor].
    + inversion Hs as [|? ? Hl Hhd]; subst.
      constructor; [now apply IH|].
      apply insertString_hd; [|assumption].
      destruct (String.leb_total x y) as [E|E]; [congruence | exact E].
Qed.

Lemma sortStrings_sorted (l : list string) : Sorted stringLe (sortStrings l).
Proof.
  induction l as [|x l IH]; cbn [sortStrings]; [constructor|].
  now apply insertString_sorted.
Qed.

Lemma collectImports_perm (f : Flags) :
  Permutation (collectImports f) (shapeImports f ++ extraImport f).
Proof.
  unfold collectImports. rewrite <- gatherImports_split.
  apply sortStrings_perm.
Qed.

Lemma shapeImports_nodup (f : Flags) : NoDup (shapeImports f).
Proof.
  unfold shapeImports. cbn zeta.
  destruct (selectDeclaration (Decl f)); cbn; [constructor | constructor |].
  destruct (selectCompressor (Compress f)); cbn;
    repeat (constructor; [cbn; intuition discriminate|]); constructor.
Qed.

(** C6. For the func shape the import list holds the import of the
    shape and the imports of the selected compressor (and the extra
    import when one is configured).  For the const and var shapes it
    holds nothing but the extra import: no import of the compressor,
    gzip included, gets into it through the compressor. *)
Theorem imports_by_shape (f : Flags) :
  (selectDeclaration (Decl f) = funcDecl ->
   Permutation (collectImports f)
     (DeclarationImports funcDecl
        ++ CompressorImports (selectCompressor (Compress f))
        ++ extraImport f)
   /\ (Import f = "" ->
       forall p, In p (collectImports f)
                 <-> In p (DeclarationImports funcDecl)
                     \/ In p (CompressorImports
                                (selectCompressor (Compress f)))))
  /\ (selectDeclaration (Decl f) <> funcDecl ->
      collectImports f = extraImport f
      /\ forall p,
          In p (CompressorImports (selectCompressor (Compress f))) ->
          p <> Import f -> ~ In p (collectImports f)).
Proof.
  split.
  - intros Hfunc.
    assert (Hperm : Permutation (collectImports f)
                      (DeclarationImports funcDecl
                         ++ CompressorImports (selectCompressor (Compress f))
                         ++ extraImport f)).
    { rewrite collectImports_perm. unfold shapeImports. cbn zeta.
      rewrite Hfunc. cbn [isFuncDecl]. now rewrite <- app_assoc. }
    split; [exact Hperm|].
    intros Hextra p.
    assert (Hnone : extraImport f = [])
      by (unfold extraImport; now rewrite Hextra).
    rewrite Hnone, app_nil_r in Hperm.
    split; intros Hin.
    + apply in_app_or. eapply Permutation_in; [exact Hperm | exact Hin].
    + eapply Permutation_in; [symmetry; exact Hperm | now apply in_or_app].
  - intros Hshape.
    assert (Heq : collectImports f = extraImport f).
    { unfold collectImports. rewrite gatherImports_split.
      unfold shapeImports, extraImport. cbn zeta.
      destruct (selectDeclaration (Decl f)); try congruence;
        cbn [DeclarationImports isFuncDecl app];
        now destruct (Import f =? "")%string. }
    split; [exact Heq|].
    intros p _ Hne Hin. rewrite Heq in Hin. unfold extraImport in Hin.
    destruct (Import f =? "")%string; cbn in Hin; [exact Hin|].
    destruct Hin as [E|[]]. now apply Hne.
Qed.

Lemma imports_by_shape_witness :
  Permutation (collectImports funcGzip) ["io"; "gzip"; "strings"]
  /\ collectImports constGzip = [].
Proof.
  split.
  - apply (proj1 (proj1 (imports_by_shape funcGzip) eq_refl)).
  - apply (proj1 (proj2 (imports_by_shape constGzip)
                    ltac:(cbn; discriminate))).
Defined.

(** C7. For every configuration the import list is in ascending
    (bytewise lexicographic) order, the order in which the import block
    lists it.  It is free of duplicates exactly when no extra import is
    configured or the extra import is not already an import of the shape
    or of the compressor. *)
Theorem imports_sorted_distinct (f : Flags) :
  Sorted stringLe (collectImports f)
  /\ (NoDup (collectImports f)
      <-> Import f = "" \/ ~ In (Import f) (shapeImports f)).
Proof.
  split; [apply sortStrings_sorted|].
  pose proof (collectImports_perm f) as Hperm.
  pose proof (shapeImports_nodup f) as Hbase.
  unfold extraImport in Hperm.
  destruct (String.eqb_spec (Import f) "") as [E|N].
  - rewrite app_nil_r in Hperm. split; [now left|].
    intros _. eapply Permutation_NoDup; [symmetry; exact Hperm | exact Hbase].
  - assert (Hperm' : Permutation (collectImports f)
                       (Import f :: shapeImports f)).
    { rewrite Hperm. symmetry. apply Permutation_cons_append. }
    split.
    + intros Hnd. right.
      apply (Permutation_NoDup Hperm') in Hnd. now inversion Hnd.
    + intros [E|Hnotin]; [contradiction|].
      eapply Permutation_NoDup; [symmetry; exact Hperm'|].
      now constructor.
Qed.

Lemma imports_sorted_distinct_witness : NoDup (collectImports funcWithFmt).
Proof.
  apply (proj2 (imports_sorted_distinct funcWithFmt)).
  right. cbn. intuition discriminate.
Defined.

(** C7, as stated, fails: an extra import that the func shape already
    requires is listed twice. *)
Lemma imports_duplicate_counterexample :
  collectImports funcWithIo = ["io"; "io"; "ioutil"; "strings"]
  /\ ~ NoDup (collectImports funcWithIo).
Proof.
  split; [reflexivity|].
  intros Hnd. cbn in Hnd. inversion Hnd as [|? ? Hnotin _]; subst.
  apply Hnotin. now left.
Qed.

(** ** A name without letters *)

Section EmptyName.

Context {U : Unicode} {H : Host}.


End EmptyName.


(** ** The bytes of the identifier *)

Lemma noDotNoQuote_app (a b : string) :
  noDotNoQuote (a ++ b) = noDotNoQuote a && noDotNoQuote b.
Proof.
  induction a as [|c a IH]; [reflexivity|].
  cbn [append noDotNoQuote]. rewrite IH. now rewrite !andb_assoc.
Qed.

Lemma noDotNoQuote_ch (c : ascii) : noDotNoQuote (ch c) = inertByte c.
Proof. unfold inertByte. cbn. now rewrite andb_true_r. Qed.

Lemma inertByte_byteOf (z : Z) :
  0 <= z < 256 -> z <> 46 -> z <> 34 -> inertByte (byteOf z) = true.
Proof.
  intros Hz H46 H34. unfold inertByte, byteOf.
  assert (Hemb : N_of_ascii (ascii_of_N (Z.to_N z)) = Z.to_N z)
    by (apply N_ascii_embedding; lia).
  apply andb_true_iff; split; apply negb_true_iff, Ascii.eqb_neq;
    intros E; rewrite E in Hemb; cbn in Hemb; lia.
Qed.

(** A tag byte or-ed with six payload bits has its top bit set. *)
Lemma tagged_bounds (t x : Z) :
  In t [128; 192; 224; 240] -> 0 <= x < 64 -> 128 <= Z.lor t x < 256.
Proof.
  intros Ht Hx.
  assert (Hall : forallb (fun k =>
                            forallb (fun t' =>
                                       (128 <=? Z.lor t' (Z.of_nat k))
                                       && (Z.lor t' (Z.of_nat k) <? 256))
                                    [128; 192; 224; 240])
                         (seq 0 64) = true) by (vm_compute; reflexivity).
  rewrite forallb_forall in Hall.
  specialize (Hall (Z.to_nat x)).
  rewrite in_seq, forallb_forall in Hall.
  specialize (Hall ltac:(lia) t Ht).
  rewrite Z2Nat.id in Hall by lia.
  apply andb_true_iff in Hall. lia.
Qed.

Lemma low_six_bits (r : Z) : 0 <= Z.land r 63 < 64.
Proof.
  change 63 with (Z.ones 6). rewrite Z.land_ones by lia.
  apply Z.mod_pos_bound. reflexivity.
Qed.

Lemma shiftr_bounds (r k hi : Z) :
  0 <= k -> 0 <= r < hi * 2 ^ k -> 0 <= Z.shiftr r k < hi.
Proof.
  intros Hk Hr. rewrite Z.shiftr_div_pow2 by assumption.
  assert (Hpow : 0 < 2 ^ k) by (apply Z.pow_pos_nonneg; lia).
  split; [apply Z.div_pos; lia|].
  apply Z.div_lt_upper_bound; lia.
Qed.

Lemma inert_tagged (t x : Z) :
  In t [128; 192; 224; 240] -> 0 <= x < 64 ->
  inertByte (byteOf (Z.lor t x)) = true.
Proof.
  intros Ht Hx. pose proof (tagged_bounds t x Ht Hx).
  apply inertByte_byteOf; lia.
Qed.

Lemma encodeRune_inert (r : rune) :
  (0 <= r <= 127 -> r <> 46 /\ r <> 34) ->
  noDotNoQuote (encodeRune r) = true.
Proof.
  intros Hascii. unfold encodeRune.
  destruct ((0 <=? r) && (r <=? 127)) eqn:E1.
  { rewrite noDotNoQuote_ch. apply inertByte_byteOf; lia. }
  destruct ((0 <=? r) && (r <=? 2047)) eqn:E2.
  { rewrite !noDotNoQuote_app, !noDotNoQuote_ch.
    rewrite !inert_tagged; cbn [In]; auto using low_six_bits.
    apply (shiftr_bounds r 6 64); lia. }
  destruct ((0 <=? r)
            && ((r <? 55296) || ((57343 <? r) && (r <=? 65535)))) eqn:E3.
  { rewrite !noDotNoQuote_app, !noDotNoQuote_ch.
    rewrite !inert_tagged; cbn [In]; auto using low_six_bits.
    apply (shiftr_bounds r 12 64); lia. }
  destruct ((65535 <? r) && (r <=? 1114111)) eqn:E4.
  { rewrite !noDotNoQuote_app, !noDotNoQuote_ch.
    rewrite !inert_tagged; cbn [In]; auto 6 using low_six_bits.
    apply (shiftr_bounds r 18 64); lia. }
  reflexivity.
Qed.

Section IdentifierBytes.

Context {U : Unicode} `{!UnicodeFacts U}.

Lemma letter_not_punctuation (r : rune) :
  IsLetter r = true -> 0 <= r <= 127 -> r <> 46 /\ r <> 34.
Proof.
  intros Hr Hrange. apply letter_ascii in Hr; [|assumption].
  unfold asciiIsLetter in Hr. lia.
Qed.

Lemma letterOrUnderscore_inert (r : rune) :
  noDotNoQuote (encodeRune (letterOrUnderscore r)) = true.
Proof.
  unfold letterOrUnderscore. destruct (IsLetter r) eqn:Hr.
  - apply encodeRune_inert. now apply letter_not_punctuation.
  - reflexivity.
Qed.

Lemma stringOfRunes_inert (s : list rune) :
  Forall (fun r => noDotNoQuote (encodeRune r) = true) s ->
  noDotNoQuote (stringOfRunes s) = true.
Proof.
  induction 1 as [|r s Hr _ IH]; [reflexivity|].
  cbn [stringOfRunes]. now rewrite noDotNoQuote_app, Hr, IH.
Qed.

(** The identifier that [getDeclName] returns has no dot and no quote. *)
Lemma getDeclName_inert (name : string) (export : bool) :
  noDotNoQuote (getDeclName name export) = true.
Proof.
  unfold getDeclName. apply stringOfRunes_inert.
  rewrite declName_before_first.
  destruct (dropNonLetters (rangeRunes name)) as [|r rest] eqn:Hd;
    [constructor|].
  pose proof (dropNonLetters_head _ r rest Hd) as Hr.
  constructor.
  - apply encodeRune_inert. apply letter_not_punctuation.
    destruct export; [now apply upper_letter | now apply lower_letter].
  - apply Forall_forall. intros x Hx. apply in_map_iff in Hx.
    destruct Hx as [y [<- _]]. apply letterOrUnderscore_inert.
Qed.

End IdentifierBytes.

(** ** The packages a declaration refers to *)

Lemma scan_app (a b : string) :
  forall st, scan st (a ++ b) = scan (scan st a) b.
Proof.
  induction a as [|c a IH]; intros st; [reflexivity | apply IH].
Qed.

(** Text without dot and quote leaves the packages found as they are. *)
Lemma scan_inert (s : string) :
  noDotNoQuote s = true ->
  forall w sel f, exists w' sel', scan (inCode w sel f) s = inCode w' sel' f.
Proof.
  induction s as [|c s IH]; intros Hs w sel f; [now exists w, sel|].
  cbn [noDotNoQuote] in Hs.
  apply andb_true_iff in Hs. destruct Hs as [Hc Hs].
  apply andb_true_iff in Hc. destruct Hc as [Hdot Hquote].
  apply negb_true_iff in Hdot, Hquote.
  cbn [scan]. unfold scanStep. cbn [mode inCode].
  rewrite Hquote, Hdot.
  destruct (isIdentByte c); apply IH; assumption.
Qed.

Lemma scan_escapeByte (x : byte) (f : list string) :
  scan (inString f) (escapeByte x) = inString f.
Proof. destruct x; reflexivity. Qed.

Lemma scan_escape (b : list byte) (f : list string) :
  scan (inString f) (escape b) = inString f.
Proof.
  induction b as [|x b IH]; [reflexivity|].
  cbn [escape]. now rewrite scan_app, scan_escapeByte.
Qed.

Lemma scan_quoted (b : list byte) (w : string) (sel : bool) (f : list string) :
  scan (inCode w sel f) (quoted b) = inCode "" false f.
Proof.
  unfold quoted. rewrite scan_app.
  change (scan (inCode w sel f) (ch dq)) with (inString f).
  now rewrite scan_app, scan_escape.
Qed.

Lemma scan_tabs (k : nat) (f : list string) :
  scan (inCode "" false f) (tabs_nat k) = inCode "" false f.
Proof. induction k as [|k IH]; [reflexivity | exact IH]. Qed.

Lemma scan_lines (indent : Z) (cs : list (list byte)) (f : list string) :
  scan (inCode "" false f)
       (String.concat plusBreak (map (chunkLine indent) cs))
  = inCode "" false f.
Proof.
  induction cs as [|c cs IH]; [reflexivity|].
  assert (Hline : scan (inCode "" false f) (chunkLine indent c)
                  = inCode "" false f).
  { unfold chunkLine, tabs. now rewrite scan_app, scan_tabs, scan_quoted. }
  destruct cs as [|d cs]; [exact Hline|].
  cbn [map]. rewrite concat_two, scan_app, Hline, scan_app.
  change (scan (inCode "" false f) plusBreak) with (inCode "" false f).
  exact IH.
Qed.

Lemma scan_literalExpr (wrap indent : Z) (b : list byte) (f : list string) :
  scan (inCode "" false f) (literalExpr wrap indent b) = inCode "" false f.
Proof.
  unfold literalExpr. destruct (wraps wrap b); [|apply scan_quoted].
  rewrite !scan_app.
  change (scan (scan (scan (inCode "" false f) (ch dq)) (ch dq)) plusBreak)
    with (inCode "" false f).
  apply scan_lines.
Qed.

(** A value whose type has no dot and no quote refers to no package. *)
Lemma scan_formatValue
  (wrap indent : Z) (typ : string) (b : list byte) (f : list string) :
  noDotNoQuote typ = true ->
  scan (inCode "" false f) (formatValue wrap indent typ b)
  = inCode "" false f.
Proof.
  intros Htyp. rewrite formatValue_shape, !scan_app.
  assert (Hopen : scan (inCode "" false f) (convOpen typ)
                  = inCode "" false f).
  { unfold convOpen. destruct (isConversion typ); [|reflexivity].
    rewrite scan_app.
    destruct (scan_inert typ Htyp "" false f) as [w [sel ->]].
    reflexivity. }
  rewrite Hopen, scan_literalExpr.
  unfold convClose. destruct (isConversion typ); reflexivity.
Qed.

Section References.

Variable gz : list byte -> list byte.

(** The qualifiers of the declaration of each shape, for an identifier
    and a type without dot and quote: the func shape uses [io], the
    qualifier of the decoder and [strings], the other shapes none. *)
Lemma referenced_FormatDeclare
  (d : Declaration) (b : list byte) (name typ : string) (c : Compressor) :
  noDotNoQuote name = true ->
  noDotNoQuote typ = true ->
  referenced (FormatDeclare gz d b name typ c)
  = match d with
    | funcDecl => ["io"; decoderPackage c; "strings"]
    | _ => []
    end.
Proof.
  intros Hname Htyp. unfold referenced.
  destruct d; unfold FormatDeclare.
  - rewrite scan_app.
    change (scan scanStart "const ") with (inCode "" false []).
    rewrite scan_app. destruct (scan_inert name Hname "" false [])
      as [w [sel ->]].
    rewrite scan_app.
    change (scan (inCode w sel []) " = ") with (inCode "" false []).
    now rewrite scan_formatValue.
  - rewrite scan_app.
    change (scan scanStart "var ") with (inCode "" false []).
    rewrite scan_app. destruct (scan_inert name Hname "" false [])
      as [w [sel ->]].
    rewrite scan_app.
    change (scan (inCode w sel []) " = ") with (inCode "" false []).
    now rewrite scan_formatValue.
  - rewrite scan_app.
    change (scan scanStart "func ") with (inCode "" false []).
    rewrite scan_app. destruct (scan_inert name Hname "" false [])
      as [w [sel ->]].
    rewrite !scan_app.
    change (scan (scan (scan (scan (inCode w sel []) "() io.ReadCloser {")
                            (ch nl)) (ch tab)) "const a = ")
      with (inCode "" false ["io"]).
    rewrite scan_formatValue by assumption.
    destruct c; reflexivity.
Qed.

End References.

Lemma standard_library_packages : StandardPackages StandardLibrary.
Proof. split; reflexivity. Qed.

Lemma providedNames_In {G : GoPackages}
  (imports : list string) (p q : string) :
  In p imports -> packageAt p = Some q -> In q (providedNames imports).
Proof.
  intros Hin Hat. unfold providedNames. apply in_flat_map.
  exists p. split; [exact Hin|]. rewrite Hat. now left.
Qed.

Lemma collectImports_In (f : Flags) (p : string) :
  In p (collectImports f) <-> In p (shapeImports f) \/ In p (extraImport f).
Proof.
  rewrite <- in_app_iff.
  split; apply Permutation_in; [|symmetry]; apply collectImports_perm.
Qed.

Section ImportsAndReferences.

Context {U : Unicode} {H : Host} {G : GoPackages}.

(** C1. For every configuration whose type (honoured for the var shape
    only) has no dot and no quote.  The extra import, when one is
    configured, is listed whether the declaration uses it or not.  For
    the const and var shapes the declaration uses no package and the
    import list holds the extra import alone: without an extra import
    both are empty.  For the func shape the declaration uses the
    packages [io], [strings] and the package of the decoder, and no
    other; the imports [io] and [strings] are listed and give the file
    the packages [io] and [strings]; besides them the list holds the
    entry of the compressor for the package of its decoder and the extra
    import, and nothing else.  Whether that entry is the path of the
    package of the decoder is left open here. *)
Theorem imports_are_references
  (f : Flags) (file : option string) (b : list byte) :
  UnicodeFacts U ->
  StandardPackages G ->
  noDotNoQuote (effectiveType f) = true ->
  (Import f <> "" -> In (Import f) (collectImports f))
  /\ (selectDeclaration (Decl f) <> funcDecl ->
      referenced (declarationText f file b) = []
      /\ collectImports f = extraImport f
      /\ (Import f = "" -> collectImports f = []))
  /\ (selectDeclaration (Decl f) = funcDecl ->
      let c := selectCompressor (Compress f) in
      (forall q,
          In q (referenced (declarationText f file b))
          <-> q = "io" \/ q = "strings" \/ q = decoderPackage c)
      /\ In "io" (collectImports f)
      /\ In "strings" (collectImports f)
      /\ In "io" (providedNames (collectImports f))
      /\ In "strings" (providedNames (collectImports f))
      /\ (forall p,
             In p (collectImports f) ->
             p = "io" \/ p = "strings" \/ p = hd "" (CompressorImports c)
             \/ In p (extraImport f))).
Proof.
  intros Facts Std Htyp.
  assert (Href : referenced (declarationText f file b)
                 = match selectDeclaration (Decl f) with
                   | funcDecl =>
                       ["io"; decoderPackage (selectCompressor (Compress f));
                        "strings"]
                   | _ => []
                   end).
  { unfold declarationText.
    apply referenced_FormatDeclare; [apply getDeclName_inert | exact Htyp]. }
  split; [|split].
  - intros Hextra. apply collectImports_In. right.
    unfold extraImport. apply String.eqb_neq in Hextra. rewrite Hextra.
    now left.
  - intros Hshape.
    assert (Hlist : collectImports f = extraImport f).
    { unfold collectImports. rewrite gatherImports_split.
      unfold shapeImports, extraImport. cbn zeta.
      destruct (selectDeclaration (Decl f)); try congruence;
        cbn [DeclarationImports isFuncDecl app];
        now destruct (Import f =? "")%string. }
    split; [|split; [exact Hlist|]].
    + rewrite Href. destruct (selectDeclaration (Decl f)); congruence.
    + intros Hextra. rewrite Hlist. unfold extraImport. now rewrite Hextra.
  - intros Hfunc c. rewrite Hfunc in Href.
    assert (Hshape : shapeImports f = ("io" :: CompressorImports c)%list).
    { unfold shapeImports. cbn zeta. now rewrite Hfunc. }
    assert (Hio : In "io" (collectImports f)).
    { apply collectImports_In. left. rewrite Hshape. now left. }
    assert (Hstrings : In "strings" (collectImports f)).
    { apply collectImports_In. left. rewrite Hshape.
      destruct c; cbn; tauto. }
    split; [|split; [exact Hio|split; [exact Hstrings|split; [|split]]]].
    + intros q. rewrite Href. cbn [In]. fold c. intuition congruence.
    + apply (providedNames_In _ "io"); [exact Hio | apply io_at].
    + apply (providedNames_In _ "strings");
        [exact Hstrings | apply strings_at].
    + intros p Hp. apply collectImports_In in Hp.
      destruct Hp as [Hp|Hp]; [|tauto].
      rewrite Hshape in Hp. destruct c; cbn in Hp |- *; intuition auto.
Qed.

(** The entry of each compressor for the package of its decoder is not
    the path of that package: where no package is found at the paths
    [ioutil] and [gzip], as in the standard library, the func shape
    lists no import that gives the file the package its decoder
    uses. *)
Lemma decoder_package_not_provided
  (f : Flags) (file : option string) (b : list byte) :
  UnicodeFacts U ->
  StandardPackages G ->
  packageAt "ioutil" = None ->
  packageAt "gzip" = None ->
  selectDeclaration (Decl f) = funcDecl ->
  Import f = "" ->
  let c := selectCompressor (Compress f) in
  In (decoderPackage c) (referenced (declarationText f file b))
  /\ ~ In (decoderPackage c) (providedNames (collectImports f)).
Proof.
  intros Facts Std Hioutil Hgzip Hfunc Hextra c.
  assert (Htyp : effectiveType f = "").
  { rewrite effectiveType_shape, Hfunc. reflexivity. }
  assert (Href : referenced (declarationText f file b)
                 = ["io"; decoderPackage c; "strings"]).
  { unfold declarationText.
    rewrite referenced_FormatDeclare;
      [|apply getDeclName_inert | now rewrite Htyp].
    now rewrite Hfunc. }
  split; [rewrite Href; cbn; tauto|].
  intros Hin. unfold providedNames in Hin. apply in_flat_map in Hin.
  destruct Hin as [p [Hp Hq]].
  apply collectImports_In in Hp. unfold extraImport in Hp.
  rewrite Hextra in Hp. cbn [String.eqb In] in Hp.
  unfold shapeImports in Hp. cbn zeta in Hp. rewrite Hfunc in Hp.
  fold c in Hp.
  pose proof io_at as Hio. pose proof strings_at as Hstr.
  destruct c; cbn in Hp, Hq;
    destruct Hp as [[<-|[<-|[<-|[]]]]|[]];
    rewrite ?Hio, ?Hstr, ?Hioutil, ?Hgzip in Hq; cbn in Hq;
    intuition discriminate.
Qed.

End ImportsAndReferences.

Lemma decoder_package_not_provided_witness :
  In "ioutil" (referenced (declarationText funcPlain None [x68; x69]))
  /\ ~ In "ioutil" (providedNames (collectImports funcPlain)).
Proof.
  apply (decoder_package_not_provided
           (U := AsciiUnicode) (H := PlainHost) (G := StandardLibrary)
           funcPlain None [x68; x69] ascii_unicode_facts
           standard_library_packages eq_refl eq_refl eq_refl eq_refl).
Defined.

Lemma imports_are_references_witness :
  In "io" (providedNames (collectImports funcPlain))
  /\ In "strings" (providedNames (collectImports funcPlain))
  /\ referenced (declarationText constGzip None [x68; x69]) = []
  /\ collectImports constGzip = [].
Proof.
  pose proof (imports_are_references
                (U := AsciiUnicode) (H := PlainHost) (G := StandardLibrary)
                funcPlain None [x68; x69] ascii_unicode_facts
                standard_library_packages eq_refl)
    as [_ [_ Hfunc]].
  pose proof (imports_are_references
                (U := AsciiUnicode) (H := PlainHost) (G := StandardLibrary)
                constGzip None [x68; x69] ascii_unicode_facts
                standard_library_packages eq_refl)
    as [_ [Hconst _]].
  destruct (Hfunc eq_refl) as [_ [_ [_ [Hio [Hstrings _]]]]].
  destruct (Hconst ltac:(cbn; discriminate)) as [Href [_ Hempty]].
  split; [exact Hio|]. split; [exact Hstrings|].
  split; [exact Href | exact (Hempty eq_refl)].
Defined.

(** C1, as stated, fails in both directions: an extra import is listed
    although the const declaration uses no package at all, and a var
    declaration whose type is qualified uses a package although nothing
    at all is listed when no extra import is given. *)
Lemma imports_not_references_counterexample :
  (collectImports constWithImport = ["fmt"]
   /\ referenced (declarationText constWithImport None [x68]) = [])
  /\ (referenced (declarationText varQualified None [x68]) = ["template"]
      /\ collectImports varQualified = []).
Proof.
  split; split; reflexivity.
Qed.


(** ** The identity compressor and the examples of the documentation *)

Lemma Encode_noCompressor (gz : list byte -> list byte) (b : list byte) :
  Encode gz noCompressor b = b.
Proof. reflexivity. Qed.

Example getDeclName_empty : getDeclName "" true = "".
Proof. reflexivity. Qed.

Example getDeclName_digits : getDeclName "123" false = "".
Proof. reflexivity. Qed.

Example getDeclName_config :
  getDeclName ".config/cfg.XML" false = "config_cfg_XML".
Proof. reflexivity. Qed.

Example getDeclName_config_exported :
  getDeclName ".config/cfg.XML" true = "Config_cfg_XML".
Proof. reflexivity. Qed.

Example FormatDeclare_hi :
  FormatDeclare gzipBytes funcDecl [x68; x69] "hi" "" noCompressor
  = "func hi() io.ReadCloser {" ++ ch nl
      ++ ch tab ++ "const a = " ++ ch dq ++ "\x68\x69" ++ ch dq ++ ch nl
      ++ ch tab ++ "return ioutil.NopCloser(strings.NewReader(a))" ++ ch nl
      ++ "}" ++ ch nl.
Proof. reflexivity. Qed.

Example formatValue_exact_multiple :
  formatValue 2 1 "" [x68; x69; x0a; xff]
  = ch dq ++ ch dq ++ " +" ++ ch nl
      ++ ch tab ++ ch dq ++ "\x68\x69" ++ ch dq ++ " +" ++ ch nl
      ++ ch tab ++ ch dq ++ "\x0a\xff" ++ ch dq ++ ch nl.
Proof. reflexivity. Qed.

(** * Further properties of the code *)

(** ** The bytes a value stands for *)

Lemma readRun_app (a b : string) :
  forall st, readRun st (a ++ b) = readRun (readRun st a) b.
Proof.
  induction a as [|c a IH]; intros st; [reflexivity | apply IH].
Qed.

Lemma readRun_escapeByte (x : byte) (acc : list byte) :
  readRun (Lit, acc) (escapeByte x) = (Lit, (acc ++ [x])%list).
Proof. destruct x; reflexivity. Qed.

Lemma readRun_escape (b : list byte) :
  forall acc, readRun (Lit, acc) (escape b) = (Lit, (acc ++ b)%list).
Proof.
  induction b as [|x b IH]; intros acc.
  - cbn. now rewrite app_nil_r.
  - cbn [escape]. rewrite readRun_app, readRun_escapeByte, IH.
    now rewrite <- app_assoc.
Qed.

Lemma readRun_quoted (b acc : list byte) :
  readRun (WantLit, acc) (quoted b) = (GotLit, (acc ++ b)%list).
Proof.
  unfold quoted. rewrite readRun_app.
  change (readRun (WantLit, acc) (ch dq)) with (Lit, acc).
  now rewrite readRun_app, readRun_escape.
Qed.

Lemma readRun_tabs (k : nat) (acc : list byte) :
  readRun (WantLit, acc) (tabs_nat k) = (WantLit, acc).
Proof. induction k as [|k IH]; [reflexivity | exact IH]. Qed.

Lemma readRun_chunkLine (indent : Z) (c acc : list byte) :
  readRun (WantLit, acc) (chunkLine indent c) = (GotLit, (acc ++ c)%list).
Proof.
  unfold chunkLine, tabs.
  now rewrite readRun_app, readRun_tabs, readRun_quoted.
Qed.

Lemma readRun_lines (indent : Z) (cs : list (list byte)) :
  cs <> [] ->
  forall acc,
    readRun (WantLit, acc)
            (String.concat plusBreak (map (chunkLine indent) cs))
    = (GotLit, (acc ++ List.concat cs)%list).
Proof.
  induction cs as [|c cs IH]; intros Hne acc; [congruence|].
  destruct cs as [|d cs].
  - cbn [map String.concat List.concat]. rewrite app_nil_r.
    apply readRun_chunkLine.
  - cbn [map]. rewrite concat_two.
    rewrite readRun_app, readRun_chunkLine, readRun_app.
    change (readRun (GotLit, (acc ++ c)%list) plusBreak)
      with (WantLit, (acc ++ c)%list).
    cbn [map] in IH. rewrite IH by discriminate.
    cbn [List.concat]. now rewrite <- app_assoc.
Qed.

Lemma literalValue_literalExpr (wrap indent : Z) (b : list byte) :
  literalValue (literalExpr wrap indent b) = Some b.
Proof.
  unfold literalValue, literalExpr. destruct (wraps wrap b) eqn:Hw.
  - rewrite !readRun_app.
    change (readRun (readRun (readRun (WantLit, []) (ch dq)) (ch dq))
              plusBreak) with (WantLit, @nil byte).
    rewrite readRun_lines
      by (apply chunks_nonempty, (wraps_nonempty wrap), Hw).
    cbn [app]. unfold chunks. rewrite chunksFuel_concat; [reflexivity| |lia].
    apply wraps_true_iff in Hw. lia.
  - now rewrite readRun_quoted.
Qed.

(** X1. The expression that [formatValue] writes between the optional
    conversion and the final line break stands for exactly the payload:
    read as Go string literals joined by [+], with [\xHH] as the byte
    [HH], it gives back every byte, whatever the wrap width and the
    indentation. *)
Theorem formatValue_value (wrap indent : Z) (typ : string) (b : list byte) :
  exists e,
    formatValue wrap indent typ b = convOpen typ ++ e ++ convClose typ ++ ch nl
    /\ literalValue e = Some b.
Proof.
  exists (literalExpr wrap indent b).
  split; [apply formatValue_shape | apply literalValue_literalExpr].
Qed.

(** X2. The two characters written for a byte are lower-case
    hexadecimal digits, the high nibble first: their values are the
    byte divided by 16 and its remainder.  Both indexings of [hextable]
    are in range, so the lookup never fails. *)
Theorem hex_digits (x : byte) :
  hexValue (hex_hi x) = Some (Byte.to_N x / 16)%N
  /\ hexValue (hex_lo x) = Some (Byte.to_N x mod 16)%N
  /\ isLowerHex (hex_hi x) = true
  /\ isLowerHex (hex_lo x) = true
  /\ String.get (N.to_nat (N.shiftr (Byte.to_N x) 4)) hextable
     = Some (hex_hi x)
  /\ String.get (N.to_nat (N.land (Byte.to_N x) 15)) hextable
     = Some (hex_lo x).
Proof. destruct x; repeat split; reflexivity. Qed.

(** ** The characters of a value *)

Lemma allChars_app (p : ascii -> bool) (a b : string) :
  allChars p (a ++ b) = allChars p a && allChars p b.
Proof.
  induction a as [|c a IH]; [reflexivity|].
  cbn [append allChars]. now rewrite IH, andb_assoc.
Qed.

Lemma allChars_escape (b : list byte) : allChars isValueChar (escape b) = true.
Proof.
  induction b as [|x b IH]; [reflexivity|].
  cbn [escape]. rewrite allChars_app, IH, andb_true_r.
  destruct x; reflexivity.
Qed.

Lemma allChars_tabs (k : nat) : allChars isValueChar (tabs_nat k) = true.
Proof. induction k as [|k IH]; [reflexivity | exact IH]. Qed.

Lemma allChars_chunkLine (indent : Z) (c : list byte) :
  allChars isValueChar (chunkLine indent c) = true.
Proof.
  unfold chunkLine, quoted, tabs.
  now rewrite !allChars_app, allChars_tabs, allChars_escape.
Qed.

Lemma allChars_lines (indent : Z) (cs : list (list byte)) :
  allChars isValueChar (String.concat plusBreak (map (chunkLine indent) cs))
  = true.
Proof.
  induction cs as [|c cs IH]; [reflexivity|].
  destruct cs as [|d cs]; [apply allChars_chunkLine|].
  cbn [map]. rewrite concat_two, !allChars_app, allChars_chunkLine.
  cbn [map] in IH. now rewrite IH.
Qed.

(** X3. Whatever the payload, the literal expression is written with
    the quote, the backslash, [x], the lower-case hexadecimal digits,
    the blank, [+], the tab and the line break only: no byte of the
    payload gets into the generated source as it is. *)
Theorem literal_characters (wrap indent : Z) (typ : string) (b : list byte) :
  exists e,
    formatValue wrap indent typ b = convOpen typ ++ e ++ convClose typ ++ ch nl
    /\ allChars isValueChar e = true.
Proof.
  exists (literalExpr wrap indent b).
  split; [apply formatValue_shape|].
  unfold literalExpr. destruct (wraps wrap b).
  - now rewrite !allChars_app, allChars_lines.
  - unfold quoted. now rewrite !allChars_app, allChars_escape.
Qed.

(** ** Different payloads, different values *)

Lemma length_append (a b : string) :
  String.length (a ++ b) = (String.length a + String.length b)%nat.
Proof.
  induction a as [|c a IH]; cbn [append String.length];
    [reflexivity | now rewrite IH].
Qed.

Lemma append_cancel_l (a x y : string) : a ++ x = a ++ y -> x = y.
Proof.
  induction a as [|c a IH]; cbn [append]; intros E; [exact E|].
  injection E as E. now apply IH.
Qed.

Lemma append_cancel_r (c : string) :
  forall x y, x ++ c = y ++ c -> x = y.
Proof.
  induction x as [|a x IH]; intros y E.
  - destruct y as [|b y]; [reflexivity|].
    apply (f_equal String.length) in E.
    cbn [append String.length] in E. rewrite length_append in E. lia.
  - destruct y as [|b y].
    + apply (f_equal String.length) in E.
      cbn [append String.length] in E. rewrite length_append in E. lia.
    + cbn [append] in E. injection E as -> E. f_equal. now apply IH.
Qed.

(** X4. For a fixed wrap width, indentation and type, two payloads
    with the same rendering are the same payload. *)
Theorem formatValue_injective
  (wrap indent : Z) (typ : string) (b1 b2 : list byte) :
  formatValue wrap indent typ b1 = formatValue wrap indent typ b2 ->
  b1 = b2.
Proof.
  rewrite !formatValue_shape. intros E.
  apply append_cancel_l in E.
  apply (append_cancel_r (convClose typ ++ ch nl)) in E.
  apply (f_equal literalValue) in E.
  rewrite !literalValue_literalExpr in E. now injection E.
Qed.

Lemma formatValue_injective_witness : [x68; x69] = [x68; x69].
Proof.
  apply (formatValue_injective 1 1 "T" [x68; x69] [x68; x69]).
  reflexivity.
Defined.

(** ** Wrapping and indentation *)

Lemma tabs_nonpositive (indent : Z) : indent <= 0 -> tabs indent = "".
Proof.
  intros Hle. unfold tabs.
  replace (Z.to_nat indent) with O by lia. reflexivity.
Qed.

Lemma countChar_tab_quoted (c : list byte) : countChar tab (quoted c) = O.
Proof.
  unfold quoted. rewrite !countChar_app.
  assert (Hesc : countChar tab (escape c) = O).
  { induction c as [|x c IH]; [reflexivity|].
    cbn [escape]. rewrite countChar_app, IH. destruct x; reflexivity. }
  rewrite Hesc. reflexivity.
Qed.

Lemma countChar_tab_lines (cs : list (list byte)) :
  countChar tab (String.concat plusBreak (map quoted cs)) = O.
Proof.
  induction cs as [|c cs IH]; [reflexivity|].
  destruct cs as [|d cs]; [apply countChar_tab_quoted|].
  cbn [map]. rewrite concat_two, !countChar_app, countChar_tab_quoted.
  cbn [map] in IH. rewrite IH. reflexivity.
Qed.

(** X5. When the value is not wrapped ([wrap <= 0] or a payload no
    longer than [wrap]) neither the wrap width nor the indentation has
    any influence on it; and an indentation of zero or less writes no
    tab at all, also when wrapping. *)
Theorem formatValue_layout_irrelevant
  (wrap indent : Z) (typ : string) (b : list byte) :
  (wrap <= 0 \/ Z.of_nat (List.length b) <= wrap ->
   forall wrap' indent',
     (wrap' <= 0 \/ Z.of_nat (List.length b) <= wrap') ->
     formatValue wrap indent typ b = formatValue wrap' indent' typ b)
  /\ (indent <= 0 ->
      formatValue wrap indent typ b = formatValue wrap 0 typ b
      /\ countChar tab (literalExpr wrap indent b) = O).
Proof.
  split.
  - intros Hflat wrap' indent' Hflat'.
    apply wraps_false_iff in Hflat, Hflat'.
    rewrite !formatValue_shape. unfold literalExpr.
    now rewrite Hflat, Hflat'.
  - intros Hle.
    assert (Hline : forall c, chunkLine indent c = quoted c).
    { intros c. unfold chunkLine. now rewrite tabs_nonpositive. }
    assert (Hmap : map (chunkLine indent) (chunks (Z.to_nat wrap) b)
                   = map quoted (chunks (Z.to_nat wrap) b)).
    { apply map_ext. exact Hline. }
    split.
    + rewrite !formatValue_shape. unfold literalExpr.
      rewrite Hmap. reflexivity.
    + unfold literalExpr.
      destruct (wraps wrap b); [|apply countChar_tab_quoted].
      rewrite Hmap, !countChar_app, countChar_tab_lines. reflexivity.
Qed.

Lemma formatValue_layout_irrelevant_witness :
  formatValue 0 3 "T" [x68; x69] = formatValue 16 1 "T" [x68; x69]
  /\ formatValue 1 (-2) "" [x68; x69] = formatValue 1 0 "" [x68; x69].
Proof.
  split.
  - apply (proj1 (formatValue_layout_irrelevant 0 3 "T" [x68; x69]));
      [left; lia | right; cbn; lia].
  - apply (proj2 (formatValue_layout_irrelevant 1 (-2) "" [x68; x69])).
    lia.
Defined.

(** ** The size of a value *)

Lemma chunkSizes_count (fuel w : nat) :
  forall n,
    (0 < w)%nat -> (n <= fuel)%nat ->
    List.length (chunkSizes fuel w n) = ((n + w - 1) / w)%nat.
Proof.
  induction fuel as [|fuel IH]; intros n Hw Hn.
  - replace n with O by lia. cbn [chunkSizes List.length].
    symmetry. apply Nat.div_small. lia.
  - destruct n as [|n].
    + cbn [chunkSizes List.length]. symmetry. apply Nat.div_small. lia.
    + cbn [chunkSizes List.length]. rewrite IH by lia.
      replace (S n + w - 1)%nat with (n + 1 * w)%nat by lia.
      rewrite Nat.div_add by lia.
      destruct (Nat.le_gt_cases (S n) w) as [Hle|Hgt].
      * replace (S n - w)%nat with O by lia.
        rewrite (Nat.div_small n w) by lia.
        rewrite (Nat.div_small (0 + w - 1) w) by lia. reflexivity.
      * replace (S n - w + w - 1)%nat with n by lia. lia.
Qed.

Lemma chunks_count (w : nat) (b : list byte) :
  (0 < w)%nat ->
  List.length (chunks w b) = ((List.length b + w - 1) / w)%nat.
Proof.
  intros Hw. unfold chunks.
  rewrite <- (length_map (@List.length byte)), chunksFuel_sizes.
  now apply chunkSizes_count.
Qed.

Lemma length_escape (b : list byte) :
  String.length (escape b) = (4 * List.length b)%nat.
Proof.
  induction b as [|x b IH]; [reflexivity|].
  cbn [escape List.length]. rewrite length_append, IH.
  cbn [escapeByte append String.length ch]. lia.
Qed.

Lemma length_tabs (k : nat) : String.length (tabs_nat k) = k.
Proof.
  induction k as [|k IH]; [reflexivity|].
  cbn [tabs_nat append ch String.length]. now rewrite IH.
Qed.

Lemma length_chunkLine (indent : Z) (c : list byte) :
  String.length (chunkLine indent c)
  = (Z.to_nat indent + 4 * List.length c + 2)%nat.
Proof.
  unfold chunkLine, quoted, tabs.
  rewrite !length_append, length_tabs, length_escape.
  cbn [ch String.length]. lia.
Qed.

Lemma length_lines (indent : Z) (cs : list (list byte)) :
  cs <> [] ->
  (String.length (String.concat plusBreak (map (chunkLine indent) cs)) + 3
   = List.length cs * (Z.to_nat indent + 5)
     + 4 * List.length (List.concat cs))%nat.
Proof.
  induction cs as [|c cs IH]; intros Hne; [congruence|].
  destruct cs as [|d cs].
  - cbn [map String.concat List.concat List.length].
    rewrite length_chunkLine, app_nil_r. lia.
  - cbn [map]. rewrite concat_two, !length_append, length_chunkLine.
    cbn [map] in IH. specialize (IH ltac:(discriminate)).
    change (String.length plusBreak) with 3%nat.
    change (List.concat (c :: d :: cs))
      with (c ++ List.concat (d :: cs))%list.
    change (List.length (c :: d :: cs)) with (S (List.length (d :: cs))).
    rewrite length_app, Nat.mul_succ_l. lia.
Qed.

Lemma countChar_nl_quoted (c : list byte) : countChar nl (quoted c) = O.
Proof.
  unfold quoted. rewrite !countChar_app.
  assert (Hesc : countChar nl (escape c) = O).
  { induction c as [|x c IH]; [reflexivity|].
    cbn [escape]. rewrite countChar_app, IH. destruct x; reflexivity. }
  rewrite Hesc. reflexivity.
Qed.

Lemma countChar_nl_chunkLine (indent : Z) (c : list byte) :
  countChar nl (chunkLine indent c) = O.
Proof.
  unfold chunkLine, tabs. rewrite countChar_app, countChar_nl_quoted.
  induction (Z.to_nat indent) as [|k IH]; [reflexivity | exact IH].
Qed.

Lemma countChar_nl_lines (indent : Z) (cs : list (list byte)) :
  cs <> [] ->
  S (countChar nl (String.concat plusBreak (map (chunkLine indent) cs)))
  = List.length cs.
Proof.
  induction cs as [|c cs IH]; intros Hne; [congruence|].
  destruct cs as [|d cs].
  - cbn [map String.concat List.length]. now rewrite countChar_nl_chunkLine.
  - cbn [map]. rewrite concat_two, !countChar_app, countChar_nl_chunkLine.
    cbn [map] in IH. specialize (IH ltac:(discriminate)).
    change (countChar nl plusBreak) with 1%nat.
    cbn [List.length] in *. lia.
Qed.

(** X6. The size of the value in bytes: four for every byte of the
    payload, the two quotes, the final line break and the conversion if
    there is one; wrapping adds, for each of the [ceil(len/wrap)] chunks,
    the indentation and five more bytes.  Without a type the number of
    line breaks is one, plus the number of chunks when wrapping. *)
Theorem formatValue_size (wrap indent : Z) (typ : string) (b : list byte) :
  let n := List.length b in
  let k := ((n + Z.to_nat wrap - 1) / Z.to_nat wrap)%nat in
  String.length (formatValue wrap indent typ b)
  = (String.length (convOpen typ) + String.length (convClose typ)
     + 4 * n + 3
     + (if wraps wrap b then k * (Z.to_nat indent + 5) else 0))%nat
  /\ countChar nl (formatValue wrap indent "" b)
     = (1 + (if wraps wrap b then k else 0))%nat.
Proof.
  cbv zeta.
  assert (Hcount : wraps wrap b = true ->
                   List.length (chunks (Z.to_nat wrap) b)
                   = ((List.length b + Z.to_nat wrap - 1) / Z.to_nat wrap)%nat).
  { intros Hw. apply chunks_count. apply wraps_true_iff in Hw. lia. }
  split.
  - rewrite formatValue_shape, !length_append. unfold literalExpr.
    destruct (wraps wrap b) eqn:Hw.
    + pose proof (length_lines indent (chunks (Z.to_nat wrap) b)
                    (chunks_nonempty _ _ (wraps_nonempty wrap b Hw))) as Hl.
      unfold chunks in Hl at 3.
      rewrite chunksFuel_concat in Hl
        by (apply wraps_true_iff in Hw; lia).
      rewrite Hcount in Hl by reflexivity.
      rewrite !length_append.
      change (String.length plusBreak) with 3%nat.
      cbn [ch String.length]. lia.
    + unfold quoted. rewrite !length_append, length_escape.
      cbn [ch String.length]. lia.
  - rewrite formatValue_shape. unfold literalExpr.
    change (convOpen "") with "". change (convClose "") with "".
    cbn [append]. rewrite !countChar_app.
    destruct (wraps wrap b) eqn:Hw.
    + pose proof (countChar_nl_lines indent (chunks (Z.to_nat wrap) b)
                    (chunks_nonempty _ _ (wraps_nonempty wrap b Hw))) as Hl.
      rewrite Hcount in Hl by reflexivity.
      rewrite !countChar_app.
      change (countChar nl plusBreak) with 1%nat.
      change (countChar nl (ch dq)) with 0%nat.
      change (countChar nl (ch nl)) with 1%nat. lia.
    + rewrite countChar_nl_quoted. reflexivity.
Qed.

(** ** The identifier *)

Lemma byteOf_code (z : Z) :
  0 <= z < 256 -> N_of_ascii (byteOf z) = Z.to_N z.
Proof. intros Hz. unfold byteOf. apply N_ascii_embedding. lia. Qed.

Lemma allChars_ch (p : ascii -> bool) (c : ascii) : allChars p (ch c) = p c.
Proof. cbn. apply andb_true_r. Qed.

(** The bytes of a rune satisfy a predicate that holds of every byte
    from 128 on and of the rune's own byte when it is ASCII. *)
Lemma encodeRune_bytes (p : ascii -> bool) (r : rune) :
  (forall c, (128 <= N_of_ascii c)%N -> p c = true) ->
  (0 <= r <= 127 -> p (byteOf r) = true) ->
  allChars p (encodeRune r) = true.
Proof.
  intros Hhigh Hascii.
  assert (Htag : forall t x,
             In t [128; 192; 224; 240] -> 0 <= x < 64 ->
             p (byteOf (Z.lor t x)) = true).
  { intros t x Ht Hx. apply Hhigh.
    pose proof (tagged_bounds t x Ht Hx). rewrite byteOf_code; lia. }
  unfold encodeRune.
  destruct ((0 <=? r) && (r <=? 127)) eqn:E1.
  { rewrite allChars_ch. apply Hascii. lia. }
  destruct ((0 <=? r) && (r <=? 2047)) eqn:E2.
  { rewrite !allChars_app, !allChars_ch.
    rewrite !Htag; cbn [In]; auto using low_six_bits.
    apply (shiftr_bounds r 6 64); lia. }
  destruct ((0 <=? r)
            && ((r <? 55296) || ((57343 <? r) && (r <=? 65535)))) eqn:E3.
  { rewrite !allChars_app, !allChars_ch.
    rewrite !Htag; cbn [In]; auto using low_six_bits.
    apply (shiftr_bounds r 12 64); lia. }
  destruct ((65535 <? r) && (r <=? 1114111)) eqn:E4.
  { rewrite !allChars_app, !allChars_ch.
    rewrite !Htag; cbn [In]; auto 6 using low_six_bits.
    apply (shiftr_bounds r 18 64); lia. }
  rewrite !allChars_app, !allChars_ch.
  rewrite !Hhigh; [reflexivity | | |]; vm_compute; discriminate.
Qed.

Lemma allChars_stringOfRunes (p : ascii -> bool) (s : list rune) :
  Forall (fun r => allChars p (encodeRune r) = true) s ->
  allChars p (stringOfRunes s) = true.
Proof.
  induction 1 as [|r s Hr _ IH]; [reflexivity|].
  cbn [stringOfRunes]. now rewrite allChars_app, Hr, IH.
Qed.

Lemma encodeRune_nonempty (r : rune) : encodeRune r <> "".
Proof.
  unfold encodeRune.
  repeat match goal with
         | |- context [if ?c then _ else _] => destruct c
         end; discriminate.
Qed.

Lemma stringOfRunes_empty (s : list rune) : stringOfRunes s = "" -> s = [].
Proof.
  destruct s as [|r s]; [reflexivity|]. cbn [stringOfRunes]. intros E.
  pose proof (encodeRune_nonempty r) as Hne.
  destruct (encodeRune r); [congruence | discriminate].
Qed.

Section Identifier.

Context {U : Unicode}.

Lemma declName_runes_kind `{!UnicodeFacts U}
  (name : list rune) (export : bool) :
  Forall (fun r => IsLetter r = true \/ r = underscore)
         (declNameRunes name export).
Proof.
  rewrite declName_before_first.
  destruct (dropNonLetters name) as [|r rest] eqn:Hd; [constructor|].
  pose proof (dropNonLetters_head name r rest Hd) as Hr.
  constructor.
  - left. destruct export; [now apply upper_letter | now apply lower_letter].
  - apply Forall_forall. intros x Hx. apply in_map_iff in Hx.
    destruct Hx as [y [<- _]]. unfold letterOrUnderscore.
    destruct (IsLetter y) eqn:Hy; [now left | now right].
Qed.

(** X7. With the letters of Go's tables, the runes of the identifier
    are letters and underscores only, the first one is a letter, and no
    rune is an ASCII digit: a digit of the name is dropped or turned
    into an underscore like any other non-letter. *)
Theorem identifier_runes (name : list rune) (export : bool) :
  UnicodeFacts U ->
  Forall (fun r => IsLetter r = true \/ r = underscore)
         (declNameRunes name export)
  /\ (forall r rest,
         declNameRunes name export = r :: rest -> IsLetter r = true)
  /\ Forall (fun r => ~ 48 <= r <= 57) (declNameRunes name export).
Proof.
  intros Facts.
  pose proof (declName_runes_kind name export) as Hkind.
  split; [exact Hkind|]. split.
  - intros r rest E.
    pose proof (declName_head_letter export name) as Hhead.
    now rewrite E in Hhead.
  - eapply Forall_impl; [|exact Hkind]. cbn beta.
    intros r [Hr| ->] Hdigit; [|unfold underscore in Hdigit; lia].
    apply letter_ascii in Hr; [|lia].
    unfold asciiIsLetter in Hr. lia.
Qed.

(** X8. The bytes of the identifier that [getDeclName] returns are
    ASCII letters, underscores and bytes of multi-byte UTF-8 sequences:
    no blank, digit, dot, quote, parenthesis or other punctuation of the
    name gets into the generated declaration. *)
Theorem identifier_bytes (name : string) (export : bool) :
  UnicodeFacts U ->
  allChars isNameByte (getDeclName name export) = true.
Proof.
  intros Facts. unfold getDeclName. apply allChars_stringOfRunes.
  eapply Forall_impl; [|apply declName_runes_kind]. cbn beta.
  intros r Hr. apply encodeRune_bytes.
  - intros c Hc. unfold isNameByte.
    apply orb_true_iff. right. now apply N.leb_le.
  - intros Hrange. unfold isNameByte. rewrite byteOf_code by lia.
    destruct Hr as [Hr| ->]; [|reflexivity].
    apply letter_ascii in Hr; [|lia].
    unfold asciiIsLetter in Hr.
    assert (Hm : r = Z.of_N (Z.to_N r)) by lia.
    destruct (Z.to_N r) as [|m] eqn:Em; [lia|].
    rewrite Hm in Hr. clear -Hr.
    apply orb_true_iff in Hr. rewrite !orb_true_iff.
    left. left. rewrite !andb_true_iff, !N.leb_le.
    rewrite !andb_true_iff, !Z.leb_le in Hr. lia.
Qed.

(** X9. The export flag decides the first rune only: the runes after
    the first are the same for both values of the flag.  And the
    identifier is empty exactly when the name has no letter. *)
Theorem export_changes_first_rune (name : list rune) :
  tl (declNameRunes name true) = tl (declNameRunes name false)
  /\ List.length (declNameRunes name true)
     = List.length (declNameRunes name false)
  /\ (forall export,
         declNameRunes name export = [] <-> noLetters name = true)
  /\ (forall export,
         stringOfRunes (declNameRunes name export) = ""
         <-> noLetters name = true).
Proof.
  assert (Hempty : forall export,
             declNameRunes name export = [] <-> noLetters name = true).
  { intros export. split; [|apply declName_no_letters].
    intros E. destruct (noLetters name) eqn:Hn; [reflexivity|].
    pose proof (dropNonLetters_some name Hn) as Hd.
    rewrite declName_before_first in E.
    destruct (dropNonLetters name); [congruence | discriminate]. }
  split; [|split; [|split]].
  - rewrite !declName_before_first. now destruct (dropNonLetters name).
  - rewrite !declName_before_first. now destruct (dropNonLetters name).
  - exact Hempty.
  - intros export. rewrite <- (Hempty export).
    split; [apply stringOfRunes_empty | now intros ->].
Qed.

(** X10. A name made of letters only is kept as it is, but for the
    case of its first letter; a name whose letters are followed by
    non-letters keeps its length. *)
Theorem letters_kept (r : rune) (rest : list rune) (export : bool) :
  IsLetter r = true ->
  (Forall (fun x => IsLetter x = true) rest ->
   declNameRunes (r :: rest) export
   = (if export then ToUpper r else ToLower r) :: rest)
  /\ List.length (declNameRunes (r :: rest) export)
     = List.length (r :: rest).
Proof.
  intros Hr. rewrite declName_before_first.
  cbn [dropNonLetters]. rewrite Hr. split.
  - intros Hall. f_equal.
    induction Hall as [|x l Hx _ IH]; [reflexivity|].
    cbn [map]. unfold letterOrUnderscore at 1. now rewrite Hx, IH.
  - cbn [List.length]. now rewrite length_map.
Qed.

End Identifier.

Lemma identifier_runes_witness :
  Forall (fun r => IsLetter r = true \/ r = underscore)
         (declNameRunes (asciiRunes "9a7.b") true).
Proof.
  apply (proj1 (identifier_runes (U := AsciiUnicode)
                  (asciiRunes "9a7.b") true ascii_unicode_facts)).
Defined.

Lemma identifier_bytes_witness :
  allChars isNameByte (getDeclName ".config/cfg.XML" false) = true.
Proof.
  apply (identifier_bytes (U := AsciiUnicode) ".config/cfg.XML" false
           ascii_unicode_facts).
Defined.

Lemma export_changes_first_rune_witness :
  declNameRunes (asciiRunes "123") true = [].
Proof.
  apply (proj2 (proj1 (proj2 (proj2
           (export_changes_first_rune (U := AsciiUnicode) (asciiRunes "123"))))
           true)).
  reflexivity.
Defined.

Lemma letters_kept_witness :
  declNameRunes (asciiRunes "cfgXML") true = asciiRunes "CfgXML".
Proof.
  apply (proj1 (letters_kept (U := AsciiUnicode) 99 (asciiRunes "fgXML") true
                  eq_refl)).
  repeat constructor.
Defined.

(** ** The declaration as a whole *)

Lemma plainType_nameBytes (s : string) :
  allChars isNameByte s = true -> plainType s = true.
Proof.
  induction s as [|c s IH]; [reflexivity|].
  cbn [allChars plainType]. intros Hall.
  apply andb_true_iff in Hall. destruct Hall as [Hc Hall].
  rewrite (IH Hall), andb_true_r. clear -Hc.
  destruct c as [[] [] [] [] [] [] [] []]; vm_compute in Hc |- *;
    congruence.
Qed.

Lemma balanceRun_formatValue
  (wrap indent : Z) (typ : string) (b : list byte) (d : nat) :
  plainType typ = true ->
  balanceRun (codeAt d) (formatValue wrap indent typ b) = codeAt d.
Proof.
  intros Hplain. rewrite formatValue_shape. unfold convOpen, convClose.
  destruct (isConversion typ).
  - rewrite !balanceRun_app, balanceRun_plainType by assumption.
    change (balanceRun (codeAt d) "(") with (codeAt (S d)).
    now rewrite balanceRun_literalExpr.
  - rewrite !balanceRun_app. cbn [append balanceRun].
    now rewrite balanceRun_literalExpr.
Qed.

Section WholeDeclaration.

Variable gz : list byte -> list byte.

(** X11. For every shape, compressor and payload, a declaration whose
    identifier is made of name bytes and whose type has no quote and no
    parenthesis has all its quotes closed and its parentheses balanced:
    the parentheses of the func signature and of the decoder close
    around the value. *)
Theorem declaration_balanced
  (d : Declaration) (b : list byte) (name typ : string) (c : Compressor) :
  allChars isNameByte name = true ->
  plainType typ = true ->
  isBalanced (FormatDeclare gz d b name typ c) = true.
Proof.
  intros Hname Htyp. apply plainType_nameBytes in Hname.
  unfold isBalanced.
  destruct d; unfold FormatDeclare.
  - rewrite balanceRun_app.
    change (balanceRun (codeAt 0) "const ") with (codeAt 0).
    rewrite balanceRun_app, balanceRun_plainType by assumption.
    rewrite balanceRun_app.
    change (balanceRun (codeAt 0) " = ") with (codeAt 0).
    now rewrite balanceRun_formatValue.
  - rewrite balanceRun_app.
    change (balanceRun (codeAt 0) "var ") with (codeAt 0).
    rewrite balanceRun_app, balanceRun_plainType by assumption.
    rewrite balanceRun_app.
    change (balanceRun (codeAt 0) " = ") with (codeAt 0).
    now rewrite balanceRun_formatValue.
  - rewrite balanceRun_app.
    change (balanceRun (codeAt 0) "func ") with (codeAt 0).
    rewrite balanceRun_app, balanceRun_plainType by assumption.
    rewrite !balanceRun_app.
    change (balanceRun
              (balanceRun
                 (balanceRun (balanceRun (codeAt 0) "() io.ReadCloser {")
                    (ch nl)) (ch tab)) "const a = ")
      with (codeAt 0).
    rewrite balanceRun_formatValue by assumption.
    destruct c; reflexivity.
Qed.

(** X12. Every declaration ends with one line break: before it stands
    the closing quote or parenthesis of the value for the const and var
    shapes, the closing brace of the function for the func shape. *)
Theorem declaration_final_newline
  (d : Declaration) (b : list byte) (name typ : string) (c : Compressor) :
  exists body,
    FormatDeclare gz d b name typ c = body ++ ch nl
    /\ match d with
       | funcDecl => lastChar body = Some "}"%char
       | _ => lastChar body = Some dq \/ lastChar body = Some ")"%char
       end.
Proof.
  assert (Hvalue : forall wrap indent pre,
             exists body,
               pre ++ formatValue wrap indent typ (Encode gz c b)
               = body ++ ch nl
               /\ (lastChar body = Some dq \/ lastChar body = Some ")"%char)).
  { intros wrap indent pre.
    exists (pre ++ convOpen typ
              ++ literalExpr wrap indent (Encode gz c b) ++ convClose typ).
    split; [rewrite formatValue_shape; now rewrite ?append_assoc|].
    rewrite !lastChar_app, lastChar_literalExpr.
    unfold convClose. destruct (isConversion typ); [right|left]; reflexivity. }
  destruct d; unfold FormatDeclare.
  - destruct (Hvalue 16 1 ("const " ++ name ++ " = ")) as [body [E Hlast]].
    exists body. split; [|exact Hlast].
    rewrite <- E. now rewrite ?append_assoc.
  - destruct (Hvalue 16 1 ("var " ++ name ++ " = ")) as [body [E Hlast]].
    exists body. split; [|exact Hlast].
    rewrite <- E. now rewrite ?append_assoc.
  - exists ("func " ++ name ++ "() io.ReadCloser {" ++ ch nl ++ ch tab
              ++ "const a = "
              ++ formatValue 16 2 typ (Encode gz c b)
              ++ ch tab ++ FuncDecoder c "a" ++ ch nl ++ "}").
    split; [now rewrite ?append_assoc|].
    now rewrite !lastChar_app.
Qed.

End WholeDeclaration.

Lemma declaration_balanced_witness :
  isBalanced (FormatDeclare (fun b => b) funcDecl zeros33 "cfg_XML" "T"
                noCompressor) = true.
Proof.
  apply (declaration_balanced (fun b => b) funcDecl zeros33 "cfg_XML" "T"
           noCompressor); reflexivity.
Defined.

(** ** The flags *)

Lemma selectDeclaration_default (decl : string) :
  decl <> "var" -> decl <> "const" -> selectDeclaration decl = funcDecl.
Proof.
  intros Hvar Hconst. unfold selectDeclaration.
  apply String.eqb_neq in Hvar, Hconst. now rewrite Hvar, Hconst.
Qed.

Lemma collectImports_empty (f : Flags) :
  collectImports f = []
  <-> selectDeclaration (Decl f) <> funcDecl /\ Import f = "".
Proof.
  split.
  - intros E. pose proof (collectImports_perm f) as Hperm.
    rewrite E in Hperm. apply Permutation_nil in Hperm.
    apply app_eq_nil in Hperm. destruct Hperm as [Hshape Hextra].
    split.
    + intros Hfunc. unfold shapeImports in Hshape. cbn zeta in Hshape.
      rewrite Hfunc in Hshape. discriminate.
    + unfold extraImport in Hextra.
      destruct (String.eqb_spec (Import f) ""); [assumption | discriminate].
  - intros [Hshape Hextra].
    unfold collectImports. rewrite gatherImports_split.
    unfold shapeImports, extraImport. cbn zeta. rewrite Hextra.
    destruct (selectDeclaration (Decl f)); try congruence; reflexivity.
Qed.

Section FlagFacts.

Context {U : Unicode} {H : Host}.

(** X13. The package clause never has an empty name.  The package flag,
    when given, is the name.  Without it the name is [main] when there
    is no output file, when the directory of the output cannot be
    imported and when the package found there has no name; it is the
    name of the package found there otherwise. *)
Theorem packageName_nonempty (f : Flags) :
  packageName f <> ""
  /\ (Package f <> "" -> packageName f = Package f)
  /\ (Package f = "" -> Output f = "" -> packageName f = "main")
  /\ (Package f = "" -> importDirName (Output f) = None ->
      packageName f = "main")
  /\ (Package f = "" -> importDirName (Output f) = Some "" ->
      packageName f = "main")
  /\ (forall name,
         Package f = "" -> Output f <> "" ->
         importDirName (Output f) = Some name -> name <> "" ->
         packageName f = name).
Proof.
  unfold packageName.
  destruct (String.eqb_spec (Package f) "") as [Hp|Hp].
  - split; [|split; [congruence|split; [|split; [|split]]]].
    + destruct (Output f =? "")%string; [discriminate|].
      destruct (importDirName (Output f)) as [name|]; [|discriminate].
      destruct (String.eqb_spec name ""); [discriminate | assumption].
    + intros _ Hout. now rewrite Hout.
    + intros _ Hdir. rewrite Hdir.
      now destruct (Output f =? "")%string.
    + intros _ Hdir. rewrite Hdir.
      now destruct (Output f =? "")%string.
    + intros name _ Hout Hdir Hname. rewrite Hdir.
      apply String.eqb_neq in Hout, Hname. now rewrite Hout, Hname.
  - split; [assumption|]. split; [reflexivity|].
    repeat split; congruence.
Qed.

(** X14. The header has an import block exactly when there is something
    to import: the block is left out when the shape is const or var and
    no extra import is configured, and only then; a block that is
    written lists at least one import. *)
Theorem importBlock_presence (f : Flags) :
  (importBlock (collectImports f) = ""
   <-> selectDeclaration (Decl f) <> funcDecl /\ Import f = "")
  /\ (importBlock (collectImports f) <> "" ->
      String.prefix ("import (" ++ ch nl) (importBlock (collectImports f))
      = true
      /\ collectImports f <> []).
Proof.
  assert (Hblock : forall l, importBlock l = "" <-> l = []).
  { intros l. destruct l as [|x l]; cbn [importBlock]; split;
      intros E; try reflexivity; discriminate. }
  split.
  - rewrite Hblock. apply collectImports_empty.
  - intros Hne. destruct (collectImports f) as [|x l]; [now elim Hne|].
    split; [reflexivity | discriminate].
Qed.

Lemma generate_split (f : Flags) (i : Input) :
  generate f i
  = match Content i with
    | Some b => Some (echoLine (Args i) ++ textBelowEcho f (FileArg i) b)
    | None => None
    end.
Proof.
  unfold generate, header, echoLine, textBelowEcho.
  destruct (Content i); [|reflexivity].
  now rewrite ?append_assoc.
Qed.

(** X15. The generated text is the line that echoes the command line
    followed by a text that the flags and the input decide.  Below that
    line, a value of the decl flag other than [var] and [const] gives
    the text that [func] gives, and a value of the compress flag other
    than [gzip] gives the text that the empty value gives, whatever the
    command lines of the two runs. *)
Theorem unknown_flags_default
  (f : Flags) (file : option string) (b : list byte) :
  (forall i,
      FileArg i = file -> Content i = Some b ->
      generate f i = Some (echoLine (Args i) ++ textBelowEcho f file b))
  /\ (Decl f <> "var" -> Decl f <> "const" ->
      textBelowEcho f file b = textBelowEcho (withDecl f "func") file b)
  /\ (Compress f <> "gzip" ->
      textBelowEcho f file b = textBelowEcho (withCompress f "") file b).
Proof.
  split; [|split].
  - intros i Hfile Hread. now rewrite generate_split, Hread, Hfile.
  - intros Hvar Hconst.
    assert (Hsel : selectDeclaration (Decl f) = funcDecl)
      by now apply selectDeclaration_default.
    assert (Htyp : effectiveType f = "").
    { rewrite effectiveType_shape, Hsel. reflexivity. }
    unfold textBelowEcho, declarationText, collectImports, gatherImports.
    cbn zeta. rewrite Htyp, Hsel. reflexivity.
  - intros Hgzip.
    assert (Hsel : selectCompressor (Compress f) = noCompressor).
    { unfold selectCompressor. apply String.eqb_neq in Hgzip.
      now rewrite Hgzip. }
    unfold textBelowEcho, declarationText, collectImports, gatherImports.
    cbn zeta. cbn [withCompress Compress Decl Import].
    rewrite Hsel. reflexivity.
Qed.

(** X16. Below the line that echoes the command line, the type flag is
    honoured for the var shape only: for every other value of the decl
    flag the text is the same whatever the type.  For every shape the
    type [string] gives, below that line, the text that the empty type
    gives. *)
Theorem type_flag_scope
  (f : Flags) (file : option string) (b : list byte) (typ : string) :
  (forall g i,
      FileArg i = file -> Content i = Some b ->
      generate g i = Some (echoLine (Args i) ++ textBelowEcho g file b))
  /\ (Decl f <> "var" ->
      textBelowEcho (withTyp f typ) file b = textBelowEcho f file b)
  /\ textBelowEcho (withTyp f "string") file b
     = textBelowEcho (withTyp f "") file b.
Proof.
  split; [|split].
  - intros g i Hfile Hread. now rewrite generate_split, Hread, Hfile.
  - intros Hvar.
    assert (Htyp : forall g, Decl g = Decl f -> effectiveType g = "").
    { intros g Hg. unfold effectiveType. rewrite Hg.
      apply String.eqb_neq in Hvar. rewrite Hvar.
      now destruct (Decl f =? "const")%string. }
    unfold textBelowEcho, declarationText.
    rewrite (Htyp (withTyp f typ) eq_refl), (Htyp f eq_refl).
    reflexivity.
  - assert (Hvalue : forall wrap indent v,
               formatValue wrap indent "string" v
               = formatValue wrap indent "" v).
    { intros wrap indent v. now rewrite !formatValue_shape. }
    unfold textBelowEcho, declarationText, effectiveType.
    cbn [withTyp Decl Typ Compress Export Name].
    do 7 f_equal.
    destruct (Decl f =? "var")%string; [|reflexivity].
    unfold FormatDeclare. now rewrite Hvalue.
Qed.

End FlagFacts.

Lemma packageName_nonempty_witness :
  packageName (flagsOf "func" "" false "" "" "string") = "main".
Proof.
  apply (proj1 (proj2 (proj2
           (packageName_nonempty (H := PlainHost)
              (flagsOf "func" "" false "" "" "string")))));
    reflexivity.
Defined.

Lemma importBlock_presence_witness :
  importBlock (collectImports constGzip) = "".
Proof.
  apply (proj2 (proj1 (importBlock_presence (H := PlainHost) constGzip))).
  split; [cbn; discriminate | reflexivity].
Defined.

Lemma unknown_flags_default_witness :
  textBelowEcho (flagsOf "function" "" false "" "x" "T") None [x68]
  = textBelowEcho (withDecl (flagsOf "function" "" false "" "x" "T") "func")
      None [x68].
Proof.
  apply (proj1 (proj2
           (unknown_flags_default (U := AsciiUnicode) (H := PlainHost)
              (flagsOf "function" "" false "" "x" "T") None [x68])));
    discriminate.
Defined.

Lemma type_flag_scope_witness :
  textBelowEcho (withTyp constTyped "template.HTML") None [x68]
  = textBelowEcho constTyped None [x68].
Proof.
  apply (proj1 (proj2
           (type_flag_scope (U := AsciiUnicode) (H := PlainHost)
              constTyped None [x68] "template.HTML"))).
  discriminate.
Defined.

(** ** What the declared value holds *)

Section DeclaredValue.

Variable gz : list byte -> list byte.

(** X17. For every shape the literal expression of the declaration
    stands for the bytes that the compressor returns for the input: the
    input itself without compression, the compressed bytes with gzip,
    for the const and var shapes too, which declare no decoder.  In the
    func shape the expression is the constant [a] that the decoder of
    the same compressor reads. *)
Theorem declaration_value
  (d : Declaration) (b : list byte) (name typ : string) (c : Compressor) :
  exists e,
    literalValue e = Some (Encode gz c b)
    /\ Encode gz noCompressor b = b
    /\ FormatDeclare gz d b name typ c
       = match d with
         | constDecl =>
             "const " ++ name ++ " = "
               ++ convOpen typ ++ e ++ convClose typ ++ ch nl
         | varDecl =>
             "var " ++ name ++ " = "
               ++ convOpen typ ++ e ++ convClose typ ++ ch nl
         | funcDecl =>
             "func " ++ name ++ "() io.ReadCloser {" ++ ch nl ++ ch tab
               ++ "const a = "
               ++ (convOpen typ ++ e ++ convClose typ ++ ch nl)
               ++ ch tab ++ FuncDecoder c "a" ++ ch nl ++ "}" ++ ch nl
         end.
Proof.
  exists (literalExpr 16 (match d with funcDecl => 2 | _ => 1 end)
            (Encode gz c b)).
  split; [apply literalValue_literalExpr|]. split; [reflexivity|].
  destruct d; unfold FormatDeclare; now rewrite formatValue_shape.
Qed.

End DeclaredValue.
